(** * Open Telekom Cloud SWR adapter: namespace reconciliation

    A shallow embedding of [src/pkg/reg/adapter/opentelekomcloud/adapter.go]
    and the properties of its namespace listing, namespace lookup and
    push-preparation operations.

    The adapter talks to a remote registry over HTTP and leans on Go
    packages ([net/http], [regexp], [encoding/json]).  Those collaborators
    are gathered in the record [Env]; the adapter functions are written
    against an arbitrary [Env], in a state monad that threads the remote's
    state and the log of the requests that were sent. *)

From Stdlib Require Import ZArith List Ascii String Bool Lia Permutation.
From stdpp Require Import base tactics option list gmap sets strings pretty.

Local Open Scope Z_scope.
Local Open Scope string_scope.

(** ** Go values *)

(** A Go [error] value, identified by the text of its [Error()] method. *)
Record error := errors_New { Error : string }.

(** [fmt.Sprintf("%d", n)] *)
Definition fmt_d (n : Z) : string := pretty n.

(** The quotation mark, which the JSON bodies below are built from. *)
Definition dquote : string := String "034"%char EmptyString.

(** ** The [strings] package, at the arguments the adapter uses *)

Module strings.

(** [strings.Replace(s, old, new, -1)] for a one-byte [old]: every
    occurrence of [old] is replaced by [new]. *)
Fixpoint Replace (s : string) (old : ascii) (new : string) : string :=
  match s with
  | EmptyString => EmptyString
  | String c rest =>
      if Ascii.eqb c old then new +:+ Replace rest old new
      else String c (Replace rest old new)
  end.

(** [strings.Split(s, sep)] for a one-byte [sep], with the segment being
    read kept in [seg]: the result always has at least one element. *)
Fixpoint Split_from (seg : string) (s : string) (sep : ascii) : list string :=
  match s with
  | EmptyString => [seg]
  | String c rest =>
      if Ascii.eqb c sep then seg :: Split_from EmptyString rest sep
      else Split_from (seg +:+ String c EmptyString) rest sep
  end.

Definition Split (s : string) (sep : ascii) : list string :=
  Split_from EmptyString s sep.

(** [strings.HasPrefix(s, prefix)] *)
Fixpoint HasPrefix (s prefix : string) : bool :=
  match prefix, s with
  | EmptyString, _ => true
  | String _ _, EmptyString => false
  | String p prefix', String c s' => Ascii.eqb c p && HasPrefix s' prefix'
  end.

(** [strings.Contains(s, substr)] *)
Fixpoint Contains (s substr : string) : bool :=
  HasPrefix s substr ||
  match s with
  | EmptyString => false
  | String _ s' => Contains s' substr
  end.

End strings.

(** ** The [unicode/utf8] package *)

Module utf8.

Definition RuneError : Z := 65533.

(** The bytes of a Go string. *)
Definition bytes (s : string) : list Z :=
  map (λ c, Z.of_N (N_of_ascii c)) (list_ascii_of_string s).

(** A continuation byte, [0x80..0xBF]. *)
Definition cont (b : Z) : bool := ((128 <=? b) && (b <=? 191))%Z.

Definition inRange (lo hi b : Z) : bool := ((lo <=? b) && (b <=? hi))%Z.

(** [utf8.DecodeRuneInString]: the first rune of [p] and its width in bytes;
    an invalid or short encoding is [RuneError] of width 1. *)
Definition DecodeRune (p : list Z) : Z * nat :=
  match p with
  | [] => (RuneError, 0%nat)
  | b0 :: p1 =>
      if (b0 <? 128)%Z then (b0, 1%nat)
      else if (b0 <? 194)%Z then (RuneError, 1%nat)
      else if (b0 <? 224)%Z then
        match p1 with
        | b1 :: _ =>
            if cont b1
            then (Z.lor (Z.shiftl (Z.land b0 31) 6) (Z.land b1 63), 2%nat)
            else (RuneError, 1%nat)
        | _ => (RuneError, 1%nat)
        end
      else if (b0 <? 240)%Z then
        match p1 with
        | b1 :: b2 :: _ =>
            let lo := if (b0 =? 224)%Z then 160 else 128 in
            let hi := if (b0 =? 237)%Z then 159 else 191 in
            if inRange lo hi b1 && cont b2
            then (Z.lor (Z.shiftl (Z.land b0 15) 12)
                    (Z.lor (Z.shiftl (Z.land b1 63) 6) (Z.land b2 63)), 3%nat)
            else (RuneError, 1%nat)
        | _ => (RuneError, 1%nat)
        end
      else if (b0 <? 245)%Z then
        match p1 with
        | b1 :: b2 :: b3 :: _ =>
            let lo := if (b0 =? 240)%Z then 144 else 128 in
            let hi := if (b0 =? 244)%Z then 143 else 191 in
            if inRange lo hi b1 && cont b2 && cont b3
            then (Z.lor (Z.shiftl (Z.land b0 7) 18)
                    (Z.lor (Z.shiftl (Z.land b1 63) 12)
                       (Z.lor (Z.shiftl (Z.land b2 63) 6) (Z.land b3 63))),
                  4%nat)
            else (RuneError, 1%nat)
        | _ => (RuneError, 1%nat)
        end
      else (RuneError, 1%nat)
  end.

(** The runes of a byte sequence, as a [for range] over a string yields
    them; [skip] counts the bytes left of the rune being read. *)
Fixpoint runes_from (skip : nat) (p : list Z) : list Z :=
  match p with
  | [] => []
  | _ :: p' =>
      match skip with
      | S k => runes_from k p'
      | O => let (r, w) := DecodeRune p in r :: runes_from (w - 1) p'
      end
  end.

Definition runes (s : string) : list Z := runes_from 0 (bytes s).

(** [utf8.ValidString]: no rune decodes to [RuneError] of width 1. *)
Fixpoint valid_from (skip : nat) (p : list Z) : bool :=
  match p with
  | [] => true
  | _ :: p' =>
      match skip with
      | S k => valid_from k p'
      | O =>
          let (r, w) := DecodeRune p in
          negb ((r =? RuneError)%Z && (w =? 1)%nat) && valid_from (w - 1) p'
      end
  end.

Definition ValidString (s : string) : bool := valid_from 0 (bytes s).

End utf8.

(** ** The [regexp] package, on a fragment of its syntax

    The fragment: literal runes, [.], the repetitions [*], [+] and [?] with
    their lazy forms, alternation, capturing groups, and a backslash before
    a punctuation character.  A pattern that uses anything else (character
    classes, counted repetition, anchors, flags and non-capturing groups,
    backslash before a letter or a digit) is [NotModelled].  Strings are
    matched rune by rune, an invalid byte counting as [RuneError].  The
    limits of the package on the size and the nesting depth of an
    expression are left out, and the error of a refused pattern is its
    code, without the text of the pattern. *)

Module regexp.

Inductive re :=
| Never
| Eps
| Lit (r : Z)
| AnyNotNL
| Cat (a b : re)
| Alt (a b : re)
| Star (a : re).

Definition Plus (a : re) : re := Cat a (Star a).
Definition Quest (a : re) : re := Alt a Eps.

Fixpoint nullable (r : re) : bool :=
  match r with
  | Never => false
  | Eps => true
  | Lit _ => false
  | AnyNotNL => false
  | Cat a b => nullable a && nullable b
  | Alt a b => nullable a || nullable b
  | Star _ => true
  end.

(** The derivative of [r] by the rune [c]. *)
Fixpoint deriv (c : Z) (r : re) : re :=
  match r with
  | Never => Never
  | Eps => Never
  | Lit d => if (c =? d)%Z then Eps else Never
  | AnyNotNL => if (c =? 10)%Z then Never else Eps
  | Cat a b =>
      if nullable a then Alt (Cat (deriv c a) b) (deriv c b)
      else Cat (deriv c a) b
  | Alt a b => Alt (deriv c a) (deriv c b)
  | Star a => Cat (deriv c a) (Star a)
  end.

(** Does [r] match a prefix of [s]? *)
Fixpoint matchPrefix (r : re) (s : list Z) : bool :=
  nullable r ||
  match s with
  | [] => false
  | c :: s' => matchPrefix (deriv c r) s'
  end.

(** Does [r] match somewhere in [s]?  ([MatchString] is not anchored.) *)
Fixpoint search (r : re) (s : list Z) : bool :=
  matchPrefix r s ||
  match s with
  | [] => false
  | _ :: s' => search r s'
  end.

(** A group being parsed: its finished branches and the pieces of the branch
    being read, both latest first. *)
Record frame := mkFrame {
  branches : list re;
  pieces : list re
}.

(** What the parser has just read. *)
Inductive last :=
| Plain
| Backslash   (* a backslash, its character still to come *)
| Paren       (* an opening parenthesis *)
| Repeat      (* a repetition operator, which a lazy [?] may follow *)
| RepeatLazy. (* a repetition operator and its lazy [?] *)

Record parser := mkParser {
  outer : list frame;
  top : frame;
  prev : last
}.

Inductive outcome (A : Type) :=
| Parsed (x : A)
| SyntaxError (err : error)
| NotModelled.
Arguments Parsed {A} x.
Arguments SyntaxError {A} err.
Arguments NotModelled {A}.

Definition ErrMissingParen := errors_New "missing closing )".
Definition ErrUnexpectedParen := errors_New "unexpected )".
Definition ErrMissingRepeatArgument :=
  errors_New "missing argument to repetition operator".
Definition ErrInvalidRepeatOp :=
  errors_New "invalid nested repetition operator".
Definition ErrTrailingBackslash :=
  errors_New "trailing backslash at end of expression".
Definition ErrInvalidUTF8 := errors_New "invalid UTF-8".
Definition ErrNotModelled :=
  errors_New "pattern outside the modelled fragment".

Definition concat (ps : list re) : re :=
  fold_left (λ acc p, Cat p acc) ps Eps.

Definition alternate (bs : list re) : re :=
  match bs with
  | [] => Never
  | b :: bs' => fold_left (λ acc b', Alt b' acc) bs' b
  end.

(** The expression of a finished group. *)
Definition close (f : frame) : re :=
  alternate (concat (pieces f) :: branches f).

Definition push (p : parser) (r : re) : parser :=
  mkParser (outer p) (mkFrame (branches (top p)) (r :: pieces (top p))) Plain.

(** A repetition operator applied to the piece before it. *)
Definition repeat (p : parser) (op : re → re) : outcome parser :=
  match prev p with
  | Repeat | RepeatLazy => SyntaxError ErrInvalidRepeatOp
  | _ =>
      match pieces (top p) with
      | [] => SyntaxError ErrMissingRepeatArgument
      | r :: rs =>
          Parsed (mkParser (outer p)
                    (mkFrame (branches (top p)) (op r :: rs)) Repeat)
      end
  end.

Definition isalnum (c : Z) : bool :=
  (((48 <=? c) && (c <=? 57)) || ((65 <=? c) && (c <=? 90))
   || ((97 <=? c) && (c <=? 122)))%Z.

(** One rune of the pattern. *)
Definition step (p : parser) (c : Z) : outcome parser :=
  match prev p with
  | Backslash =>
      if (c <? 128)%Z && negb (isalnum c) then Parsed (push p (Lit c))
      else NotModelled
  | _ =>
      if (c =? 92)%Z then                                   (* backslash *)
        Parsed (mkParser (outer p) (top p) Backslash)
      else if (c =? 46)%Z then Parsed (push p AnyNotNL)     (* . *)
      else if (c =? 42)%Z then repeat p Star                (* * *)
      else if (c =? 43)%Z then repeat p Plus                (* + *)
      else if (c =? 63)%Z then                              (* ? *)
        match prev p with
        | Repeat => Parsed (mkParser (outer p) (top p) RepeatLazy)
        | Paren => NotModelled
        | _ => repeat p Quest
        end
      else if (c =? 40)%Z then                              (* ( *)
        Parsed (mkParser (top p :: outer p) (mkFrame [] []) Paren)
      else if (c =? 41)%Z then                              (* ) *)
        match outer p with
        | [] => SyntaxError ErrUnexpectedParen
        | f :: fs =>
            Parsed (mkParser fs
                      (mkFrame (branches f) (close (top p) :: pieces f)) Plain)
        end
      else if (c =? 124)%Z then                             (* | *)
        Parsed (mkParser (outer p)
                  (mkFrame (concat (pieces (top p)) :: branches (top p)) [])
                  Plain)
      else if ((c =? 91) || (c =? 123) || (c =? 94) || (c =? 36))%Z then
        NotModelled                                         (* [ { ^ $ *)
      else Parsed (push p (Lit c))
  end.

Fixpoint parseRunes (t : list Z) (p : parser) : outcome re :=
  match t with
  | [] =>
      match prev p, outer p with
      | Backslash, _ => SyntaxError ErrTrailingBackslash
      | _, _ :: _ => SyntaxError ErrMissingParen
      | _, [] => Parsed (close (top p))
      end
  | c :: t' =>
      match step p c with
      | Parsed p' => parseRunes t' p'
      | SyntaxError err => SyntaxError err
      | NotModelled => NotModelled
      end
  end.

(** [regexp.Compile] *)
Definition Compile (expr : string) : outcome re :=
  if utf8.ValidString expr
  then parseRunes (utf8.runes expr) (mkParser [] (mkFrame [] []) Plain)
  else SyntaxError ErrInvalidUTF8.

(** [regexp.MatchString(pattern, s)] *)
Definition MatchString (pattern s : string) : bool + error :=
  match Compile pattern with
  | Parsed r => inl (search r (utf8.runes s))
  | SyntaxError err => inr err
  | NotModelled => inr ErrNotModelled
  end.

(** Is the pattern inside the fragment? *)
Definition modelled (pattern : string) : bool :=
  match Compile pattern with
  | NotModelled => false
  | _ => true
  end.

End regexp.

(** ** The host's model package *)

Module model.

(** The values the adapter stores behind [interface{}]. *)
Inductive value :=
| Int64 (n : Z)
| Int (n : Z)
| Str (s : string).

(** Modelled from the spec: the host's [model.Namespace] type declaration,
    [{ name: string, metadata: mapping(string -> value) }]. *)
Module Namespace.
Record t := mk { Name : string; Metadata : gmap string value }.
End Namespace.

(** Modelled from the spec: the host's [model.NamespaceQuery] type
    declaration, [{ name: string }]. *)
Module NamespaceQuery.
Record t := mk { Name : string }.
End NamespaceQuery.

(** Modelled from the spec: the host's [model.Repository] type declaration,
    of which the adapter reads the name. *)
Module Repository.
Record t := mk { Name : string }.
End Repository.

(** Modelled from the spec: the host's [model.ResourceMetadata] type
    declaration: a repository reference and a tag list. *)
Module ResourceMetadata.
Record t := mk { Repository : Repository.t; Vtags : list string }.
End ResourceMetadata.

(** Modelled from the spec: the host's [model.Resource] type declaration,
    of which the adapter reads the metadata. *)
Module Resource.
Record t := mk { Metadata : ResourceMetadata.t }.
End Resource.

(** Modelled from the spec: the host's [model.Healthy] constant, the status
    the health check reports. *)
Definition Healthy : string := "healthy".

End model.

(** ** The [net/http] package *)

Module http.

Record Request := mkRequest {
  Method : string;
  URL : string;
  Header : list (string * string);
  ReqBody : option string
}.

(** A response: its status code, and what [io.ReadAll] yields on its body
    (the bytes that could be read, and the read error if there was one). *)
Record Response := mkResponse {
  StatusCode : Z;
  Body : string * option error
}.

(** [r.Header.Add(key, value)], for a key given in its canonical form. *)
Definition Header_Add (r : Request) (key value : string) : Request :=
  {| Method := Method r; URL := URL r;
     Header := Header r ++ [(key, value)]; ReqBody := ReqBody r |}.

Definition isPOST (r : Request) : bool := String.eqb (Method r) "POST".
Definition isGET (r : Request) : bool := String.eqb (Method r) "GET".

End http.

(** ** The remote's namespace records *)

Record otcNamespace := mkOtcNamespace {
  ID : Z;
  Name : string;
  CreatorName : string;
  DomainPublic : Z;
  Auth : Z;
  DomainName : string;
  UserCount : Z;
  ImageCount : Z
}.

(** [otcNamespaceList]: the [namespaces] field of the list body. *)
Record otcNamespaceList := mkOtcNamespaceList {
  Namespace : list otcNamespace
}.

(** [ns.metadata()] *)
Definition metadata (ns : otcNamespace) : gmap string model.value :=
  let metadata : gmap string model.value := ∅ in
  let metadata := <["id" := model.Int64 (ID ns)]> metadata in
  let metadata := <["creator_name" := model.Str (CreatorName ns)]> metadata in
  let metadata := <["domain_public" := model.Int (DomainPublic ns)]> metadata in
  let metadata := <["auth" := model.Int (Auth ns)]> metadata in
  let metadata := <["domain_name" := model.Str (DomainName ns)]> metadata in
  let metadata := <["user_count" := model.Int64 (UserCount ns)]> metadata in
  let metadata := <["image_count" := model.Int64 (ImageCount ns)]> metadata in
  metadata.

(** ** The collaborators of the adapter

    [World] is the state of the remote registry.  [client_Do] is
    [a.client.Do]: the request modifiers (authentication) and the transport,
    which answer a request with a response or a transport error and move the
    remote to its next state.  [url_Parse] is the one way [http.NewRequest]
    fails for the two constant methods the adapter uses: the URL does not
    parse.  The [regexp] and [encoding/json] entries are the library
    functions at the types the adapter calls them with. *)
Record Env := mkEnv {
  World : Type;
  url_Parse : string → option error;
  client_Do : http.Request → World → (http.Response + error) * World;
  regexp_MatchString : string → string → bool + error;
  json_Unmarshal_otcNamespaceList : string → otcNamespaceList + error;
  json_Unmarshal_otcNamespace : string → otcNamespace + error;
  json_Marshal_namespace : string → string + error
}.

(** The adapter: of its fields the namespace operations read the registry's
    base URL; the clients live in [Env]. *)
Record adapter := mkAdapter { registry_URL : string }.

(** The order in which [for namespace := range namespaces] visits the keys
    of a Go map: some enumeration of the keys, each once. *)
Record RangeOrder := mkRangeOrder {
  range :> gset string → list string;
  range_perm : ∀ m, range m ≡ₚ elements m
}.

(** [fmt.Errorf("[%d][%s]", code, string(body))] *)
Definition statusError (code : Z) (body : string) : error :=
  errors_New ("[" +:+ fmt_d code +:+ "][" +:+ body +:+ "]").

(** [code >= 300 || code < 200] *)
Definition badStatus (code : Z) : bool :=
  ((code >=? 300) || (code <? 200))%Z.

Definition contentType : string * string :=
  ("Content-Type", "application/json; charset=utf-8").

Section Adapter.

Context (env : Env).

(** The state the operations run in: the remote, and the requests handed to
    [a.client.Do] so far, oldest first. *)
Record State := mkState {
  world : World env;
  sent : list http.Request
}.

Definition M (A : Type) : Type := State → A * State.

Definition ret {A} (x : A) : M A := λ st, (x, st).

Definition bind {A B} (m : M A) (k : A → M B) : M B :=
  λ st, let (x, st') := m st in k x st'.

Notation "x <- m ;; k" := (bind m (λ x, k))
  (at level 100, m at next level, right associativity).

(** [http.NewRequest(method, url, body)] for a valid method. *)
Definition http_NewRequest (method url : string) (body : option string)
  : http.Request + error :=
  match url_Parse env url with
  | Some err => inr err
  | None => inl (http.mkRequest method url [] body)
  end.

(** [a.client.Do(r)] *)
Definition Do (r : http.Request) : M (http.Response + error) :=
  λ st, let (resp, w) := client_Do env r (world st) in
        (resp, mkState w (sent st ++ [r])).

(** The body of the loop of [ListNamespaces] (lines 135-147), with the
    slice built so far in [namespaces]. *)
Fixpoint rangeNamespacesData (reg : string) (data : list otcNamespace)
    (namespaces : list model.Namespace.t)
  : list model.Namespace.t * option error :=
  match data with
  | [] => (namespaces, None)
  | namespaceData :: data' =>
      let namespace :=
        model.Namespace.mk (Name namespaceData) (metadata namespaceData) in
      match regexp_MatchString env reg (model.Namespace.Name namespace) with
      | inr _ => (namespaces, None)
      | inl b =>
          rangeNamespacesData reg data'
            (if b then namespaces ++ [namespace] else namespaces)
      end
  end.

Definition listURL (a : adapter) : string :=
  registry_URL a +:+ "/dockyard/v2/visible/namespaces".

(** The request [ListNamespaces] sends. *)
Definition listRequest (a : adapter) : http.Request :=
  http.mkRequest "GET" (listURL a) [contentType] None.

(** The pattern of line 133. *)
Definition matchPattern (query : model.NamespaceQuery.t) : string :=
  ".*" +:+ strings.Replace (model.NamespaceQuery.Name query) " " EmptyString
       +:+ ".*".

(** [ListNamespaces(query)], which returns a slice of namespaces and an
    error.  The query is a record: a nil query, on which the Go function
    panics at line 133, is outside the model.  Closing the response body
    changes nothing that the model observes. *)
Definition ListNamespaces (a : adapter) (query : model.NamespaceQuery.t)
  : M (list model.Namespace.t * option error) :=
  let namespaces : list model.Namespace.t := [] in
  let urls := listURL a in
  match http_NewRequest "GET" urls None with
  | inr err => ret (namespaces, Some err)
  | inl r =>
      let r := http.Header_Add r (fst contentType) (snd contentType) in
      resp <- Do r ;;
      match resp with
      | inr err => ret (namespaces, Some err)
      | inl resp =>
          let code := http.StatusCode resp in
          if badStatus code then
            let (body, _) := http.Body resp in
            ret (namespaces, Some (statusError code body))
          else
            match http.Body resp with
            | (_, Some err) => ret (namespaces, Some err)
            | (body, None) =>
                match json_Unmarshal_otcNamespaceList env body with
                | inr err => ret (namespaces, Some err)
                | inl namespacesData =>
                    let reg := matchPattern query in
                    ret (rangeNamespacesData reg
                           (Namespace namespacesData) namespaces)
                end
            end
      end
  end.

Definition lookupURL (a : adapter) (namespaceStr : string) : string :=
  registry_URL a +:+ "/dockyard/v2/namespaces/" +:+ namespaceStr.

(** The request [GetNamespace] sends. *)
Definition lookupRequest (a : adapter) (namespaceStr : string) : http.Request :=
  http.mkRequest "GET" (lookupURL a namespaceStr) [contentType] None.

(** The value [GetNamespace] returns next to every error. *)
Definition unsetNamespace : model.Namespace.t := model.Namespace.mk EmptyString ∅.

(** [GetNamespace(namespaceStr)], which returns a namespace and an error;
    the namespace pointer it returns is never nil. *)
Definition GetNamespace (a : adapter) (namespaceStr : string)
  : M (model.Namespace.t * option error) :=
  let namespace := unsetNamespace in
  let urls := lookupURL a namespaceStr in
  match http_NewRequest "GET" urls None with
  | inr err => ret (namespace, Some err)
  | inl r =>
      let r := http.Header_Add r (fst contentType) (snd contentType) in
      resp <- Do r ;;
      match resp with
      | inr err => ret (namespace, Some err)
      | inl resp =>
          let code := http.StatusCode resp in
          if badStatus code then
            let (body, _) := http.Body resp in
            ret (namespace, Some (statusError code body))
          else
            match http.Body resp with
            | (_, Some err) => ret (namespace, Some err)
            | (body, None) =>
                match json_Unmarshal_otcNamespace env body with
                | inr err => ret (namespace, Some err)
                | inl namespaceData =>
                    ret (model.Namespace.mk (Name namespaceData)
                           (metadata namespaceData), None)
                end
            end
      end
  end.

(** Lines 164-168 of [PrepareForPush]: the candidate namespace of a
    resource.  [strings.Split] never returns an empty slice.  A resource is
    a record: nil metadata or a nil repository, on which the Go function
    panics, is outside the model. *)
Definition candidate (resource : model.Resource.t) : string :=
  let paths :=
    strings.Split
      (model.Repository.Name
         (model.ResourceMetadata.Repository (model.Resource.Metadata resource)))
      "/" in
  match paths with
  | [] => EmptyString
  | path0 :: _ => path0
  end.

(** The first loop of [PrepareForPush] (lines 163-177): the namespaces to
    create, or the error of the first lookup that fails. *)
Fixpoint rangeResources (a : adapter) (resources : list model.Resource.t)
    (namespaces : gset string) : M (gset string + error) :=
  match resources with
  | [] => ret (inl namespaces)
  | resource :: resources' =>
      let namespace := candidate resource in
      r <- GetNamespace a namespace ;;
      match r with
      | (_, Some err) => ret (inr err)
      | (ns, None) =>
          if String.eqb (model.Namespace.Name ns) namespace
          then rangeResources a resources' namespaces
          else rangeResources a resources' ({[ namespace ]} ∪ namespaces)
      end
  end.

Definition createURL (a : adapter) : string :=
  registry_URL a +:+ "/dockyard/v2/namespaces".

(** The request the second loop sends for a marshalled payload. *)
Definition createRequest (a : adapter) (payload : string) : http.Request :=
  http.mkRequest "POST" (createURL a) [contentType] (Some payload).

(** The second loop of [PrepareForPush] (lines 181-213), over the keys in
    the order the map yields them. *)
Fixpoint rangeNamespaces (a : adapter) (keys : list string) : M (option error) :=
  match keys with
  | [] => ret None
  | namespace :: keys' =>
      match json_Marshal_namespace env namespace with
      | inr err => ret (Some err)
      | inl namespacebyte =>
          match http_NewRequest "POST" (createURL a) (Some namespacebyte) with
          | inr err => ret (Some err)
          | inl r =>
              let r := http.Header_Add r (fst contentType) (snd contentType) in
              resp <- Do r ;;
              match resp with
              | inr err => ret (Some err)
              | inl resp =>
                  let code := http.StatusCode resp in
                  if badStatus code then
                    let (body, _) := http.Body resp in
                    ret (Some (statusError code body))
                  else rangeNamespaces a keys'
              end
          end
      end
  end.

(** [PrepareForPush(resources)], which returns an error. *)
Definition PrepareForPush (a : adapter) (order : RangeOrder)
    (resources : list model.Resource.t) : M (option error) :=
  r <- rangeResources a resources ∅ ;;
  match r with
  | inr err => ret (Some err)
  | inl namespaces => rangeNamespaces a (order namespaces)
  end.

(** [HealthCheck()], which returns a status and an error. *)
Definition HealthCheck (a : adapter) : M (string * option error) :=
  ret (model.Healthy, None).

End Adapter.

Arguments mkState {env} world sent.
Arguments world {env} s.
Arguments sent {env} s.

(** ** The [encoding/json] package, on a fragment of JSON

    The fragment: objects, arrays, strings with the two-character escapes,
    integers, [true], [false] and [null].  A body outside the fragment
    (fractions, exponents, [\u] escapes, a repeated [namespaces] member) is
    reported as an error. *)

Module json.

#[warnings="-register-all"]
Inductive value :=
| Null
| Bool (b : bool)
| Number (n : Z)
| Str (s : string)
| Array (vs : list value)
| Object (members : list (string * value)).

Definition SyntaxError := errors_New "invalid character in JSON input".
Definition UnmarshalTypeError := errors_New "json: cannot unmarshal value".
Definition ErrNotModelled := errors_New "JSON outside the modelled fragment".

Definition isSpace (c : ascii) : bool :=
  Ascii.eqb c " " || Ascii.eqb c "009" || Ascii.eqb c "010" || Ascii.eqb c "013".

Fixpoint skipSpace (t : list ascii) : list ascii :=
  match t with
  | c :: t' => if isSpace c then skipSpace t' else t
  | [] => []
  end.

Definition unescape (c : ascii) : option ascii :=
  if Ascii.eqb c "034" then Some "034"%char
  else if Ascii.eqb c "\" then Some "\"%char
  else if Ascii.eqb c "/" then Some "/"%char
  else if Ascii.eqb c "b" then Some "008"%char
  else if Ascii.eqb c "f" then Some "012"%char
  else if Ascii.eqb c "n" then Some "010"%char
  else if Ascii.eqb c "r" then Some "013"%char
  else if Ascii.eqb c "t" then Some "009"%char
  else None.

(** A string literal, from behind its opening quotation mark. *)
Fixpoint scanString (t : list ascii) (acc : string)
  : option (string * list ascii) :=
  match t with
  | [] => None
  | c :: t' =>
      if Ascii.eqb c "034" then Some (acc, t')
      else if Ascii.eqb c "\" then
        match t' with
        | e :: t'' =>
            match unescape e with
            | Some x => scanString t'' (acc +:+ String x EmptyString)
            | None => None
            end
        | [] => None
        end
      else if (N_of_ascii c <? 32)%N then None
      else scanString t' (acc +:+ String c EmptyString)
  end.

Definition digit (c : ascii) : option Z :=
  let n := Z.of_N (N_of_ascii c) in
  if ((48 <=? n) && (n <=? 57))%Z then Some (n - 48)%Z else None.

Fixpoint scanDigits (t : list ascii) (acc : Z) : Z * list ascii :=
  match t with
  | c :: t' =>
      match digit c with
      | Some d => scanDigits t' (10 * acc + d)%Z
      | None => (acc, t)
      end
  | [] => (acc, [])
  end.

(** An integer without sign; a leading zero stands alone, and a fraction or
    an exponent is outside the fragment. *)
Definition scanNatural (t : list ascii) : option (Z * list ascii) :=
  match t with
  | c :: t' =>
      match digit c with
      | Some d =>
          let (n, rest) := if (d =? 0)%Z then (0%Z, t') else scanDigits t' d in
          match rest with
          | c' :: _ =>
              if Ascii.eqb c' "." || Ascii.eqb c' "e" || Ascii.eqb c' "E"
                 || (if digit c' is Some _ then true else false)
              then None else Some (n, rest)
          | [] => Some (n, rest)
          end
      | None => None
      end
  | [] => None
  end.

Fixpoint parseValue (fuel : nat) (t : list ascii) : option (value * list ascii) :=
  match fuel with
  | O => None
  | S fuel' =>
      match skipSpace t with
      | "{"%char :: t1 =>
          match skipSpace t1 with
          | "}"%char :: t2 => Some (Object [], t2)
          | _ =>
              match parseMembers fuel' t1 with
              | Some (ms, t2) => Some (Object ms, t2)
              | None => None
              end
          end
      | "["%char :: t1 =>
          match skipSpace t1 with
          | "]"%char :: t2 => Some (Array [], t2)
          | _ =>
              match parseElements fuel' t1 with
              | Some (vs, t2) => Some (Array vs, t2)
              | None => None
              end
          end
      | "034"%char :: t1 =>
          match scanString t1 EmptyString with
          | Some (s, t2) => Some (Str s, t2)
          | None => None
          end
      | "t"%char :: "r"%char :: "u"%char :: "e"%char :: t1 =>
          Some (Bool true, t1)
      | "f"%char :: "a"%char :: "l"%char :: "s"%char :: "e"%char :: t1 =>
          Some (Bool false, t1)
      | "n"%char :: "u"%char :: "l"%char :: "l"%char :: t1 => Some (Null, t1)
      | "-"%char :: t1 =>
          match scanNatural t1 with
          | Some (n, t2) => Some (Number (- n), t2)
          | None => None
          end
      | t1 =>
          match scanNatural t1 with
          | Some (n, t2) => Some (Number n, t2)
          | None => None
          end
      end
  end
with parseElements (fuel : nat) (t : list ascii)
  : option (list value * list ascii) :=
  match fuel with
  | O => None
  | S fuel' =>
      match parseValue fuel' t with
      | Some (v, t1) =>
          match skipSpace t1 with
          | ","%char :: t2 =>
              match parseElements fuel' t2 with
              | Some (vs, t3) => Some (v :: vs, t3)
              | None => None
              end
          | "]"%char :: t2 => Some ([v], t2)
          | _ => None
          end
      | None => None
      end
  end
with parseMembers (fuel : nat) (t : list ascii)
  : option (list (string * value) * list ascii) :=
  match fuel with
  | O => None
  | S fuel' =>
      match skipSpace t with
      | "034"%char :: t1 =>
          match scanString t1 EmptyString with
          | Some (k, t2) =>
              match skipSpace t2 with
              | ":"%char :: t3 =>
                  match parseValue fuel' t3 with
                  | Some (v, t4) =>
                      match skipSpace t4 with
                      | ","%char :: t5 =>
                          match parseMembers fuel' t5 with
                          | Some (ms, t6) => Some ((k, v) :: ms, t6)
                          | None => None
                          end
                      | "}"%char :: t5 => Some ([(k, v)], t5)
                      | _ => None
                      end
                  | None => None
                  end
              | _ => None
              end
          | None => None
          end
      | _ => None
      end
  end.

(** A whole body: one value, and white space around it. *)
Definition Parse (body : string) : option value :=
  let t := list_ascii_of_string body in
  match parseValue (2 * List.length t + 2) t with
  | Some (v, rest) =>
      match skipSpace rest with
      | [] => Some v
      | _ => None
      end
  | None => None
  end.

Definition lowerChar (c : ascii) : ascii :=
  let n := N_of_ascii c in
  if ((65 <=? n) && (n <=? 90))%N then ascii_of_N (n + 32) else c.

(** Member names are matched to field tags without regard to case. *)
Fixpoint lower (s : string) : string :=
  match s with
  | EmptyString => EmptyString
  | String c s' => String (lowerChar c) (lower s')
  end.

Definition int64 (n : Z) : bool :=
  ((-9223372036854775808 <=? n) && (n <=? 9223372036854775807))%Z.

Definition asInt (v : value) (old : Z) : Z + error :=
  match v with
  | Null => inl old
  | Number n => if int64 n then inl n else inr UnmarshalTypeError
  | _ => inr UnmarshalTypeError
  end.

Definition asString (v : value) (old : string) : string + error :=
  match v with
  | Null => inl old
  | Str s => inl s
  | _ => inr UnmarshalTypeError
  end.

(** The members of an object stored into an [otcNamespace], in their order;
    the fields tagged [json:"-"] are never stored. *)
Fixpoint setFields (ms : list (string * value)) (ns : otcNamespace)
  : otcNamespace + error :=
  match ms with
  | [] => inl ns
  | (k, v) :: ms' =>
      let k := lower k in
      if String.eqb k "id" then
        match asInt v (ID ns) with
        | inl n =>
            setFields ms'
              (mkOtcNamespace n (Name ns) (CreatorName ns) (DomainPublic ns)
                 (Auth ns) (DomainName ns) (UserCount ns) (ImageCount ns))
        | inr err => inr err
        end
      else if String.eqb k "name" then
        match asString v (Name ns) with
        | inl x =>
            setFields ms'
              (mkOtcNamespace (ID ns) x (CreatorName ns) (DomainPublic ns)
                 (Auth ns) (DomainName ns) (UserCount ns) (ImageCount ns))
        | inr err => inr err
        end
      else if String.eqb k "creator_name" then
        match asString v (CreatorName ns) with
        | inl x =>
            setFields ms'
              (mkOtcNamespace (ID ns) (Name ns) x (DomainPublic ns)
                 (Auth ns) (DomainName ns) (UserCount ns) (ImageCount ns))
        | inr err => inr err
        end
      else if String.eqb k "auth" then
        match asInt v (Auth ns) with
        | inl n =>
            setFields ms'
              (mkOtcNamespace (ID ns) (Name ns) (CreatorName ns)
                 (DomainPublic ns) n (DomainName ns) (UserCount ns)
                 (ImageCount ns))
        | inr err => inr err
        end
      else if String.eqb k "user_count" then
        match asInt v (UserCount ns) with
        | inl n =>
            setFields ms'
              (mkOtcNamespace (ID ns) (Name ns) (CreatorName ns)
                 (DomainPublic ns) (Auth ns) (DomainName ns) n (ImageCount ns))
        | inr err => inr err
        end
      else if String.eqb k "image_count" then
        match asInt v (ImageCount ns) with
        | inl n =>
            setFields ms'
              (mkOtcNamespace (ID ns) (Name ns) (CreatorName ns)
                 (DomainPublic ns) (Auth ns) (DomainName ns) (UserCount ns) n)
        | inr err => inr err
        end
      else setFields ms' ns
  end.

(** The zero value of [otcNamespace]. *)
Definition zero : otcNamespace :=
  mkOtcNamespace 0 EmptyString EmptyString 0 0 EmptyString 0 0.

Definition toNamespace (v : value) : otcNamespace + error :=
  match v with
  | Null => inl zero
  | Object ms => setFields ms zero
  | _ => inr UnmarshalTypeError
  end.

Fixpoint toNamespaces (vs : list value) : list otcNamespace + error :=
  match vs with
  | [] => inl []
  | v :: vs' =>
      match toNamespace v, toNamespaces vs' with
      | inl ns, inl nss => inl (ns :: nss)
      | inr err, _ => inr err
      | _, inr err => inr err
      end
  end.

(** [json.Unmarshal(body, &namespaceData)] for an [otcNamespace] *)
Definition Unmarshal_otcNamespace (body : string) : otcNamespace + error :=
  match Parse body with
  | Some v => toNamespace v
  | None => inr SyntaxError
  end.

Definition isNamespaces (m : string * value) : bool :=
  String.eqb (lower (fst m)) "namespaces".

(** [json.Unmarshal(body, &namespacesData)] for an [otcNamespaceList] *)
Definition Unmarshal_otcNamespaceList (body : string) : otcNamespaceList + error :=
  match Parse body with
  | Some Null => inl (mkOtcNamespaceList [])
  | Some (Object ms) =>
      match filter (λ m, isNamespaces m = true) ms with
      | [] => inl (mkOtcNamespaceList [])
      | [(_, Null)] => inl (mkOtcNamespaceList [])
      | [(_, Array vs)] =>
          match toNamespaces vs with
          | inl nss => inl (mkOtcNamespaceList nss)
          | inr err => inr err
          end
      | [_] => inr UnmarshalTypeError
      | _ => inr ErrNotModelled
      end
  | Some _ => inr UnmarshalTypeError
  | None => inr SyntaxError
  end.

(** A byte a JSON string literal holds as it is. *)
Definition verbatim (c : ascii) : bool :=
  let n := N_of_ascii c in
  ((32 <=? n) && (n <? 128))%N
  && negb (Ascii.eqb c "034" || Ascii.eqb c "\" || Ascii.eqb c "<"
           || Ascii.eqb c ">" || Ascii.eqb c "&").

(** The string literal of [s]; the bytes that are written as [\u] escapes
    are outside the fragment. *)
Fixpoint quote_from (s : string) : option string :=
  match s with
  | EmptyString => Some dquote
  | String c s' =>
      match quote_from s' with
      | Some q =>
          if verbatim c then Some (String c q)
          else if Ascii.eqb c "034" || Ascii.eqb c "\"
          then Some (String "\" (String c q))
          else None
      | None => None
      end
  end.

Definition quote (s : string) : option string :=
  match quote_from s with
  | Some q => Some (dquote +:+ q)
  | None => None
  end.

(** [json.Marshal] of the anonymous struct with the one field
    [Namespace string `json:"namespace"`]. *)
Definition Marshal_namespace (namespace : string) : string + error :=
  match quote namespace with
  | Some q => inl ("{" +:+ dquote +:+ "namespace" +:+ dquote +:+ ":" +:+ q +:+ "}")
  | None => inr ErrNotModelled
  end.

End json.

(** ** A model remote

    A registry that keeps the names of its namespaces, oldest first.  The
    reply to the lookup of a name it does not have is a parameter; the
    adapter's test answers it with status 200 and the body [{}].  It holds
    at most [quota] namespaces, and answers a creation beyond that with
    status 500. *)

Module remote.

Record config := mkConfig {
  base : string;
  absent : http.Response;
  quota : nat
}.

Definition ok (body : string) : http.Response :=
  http.mkResponse 200 (body, None).

Definition recordBody (name : string) : string :=
  match json.quote name with
  | Some q => "{" +:+ dquote +:+ "name" +:+ dquote +:+ ":" +:+ q +:+ "}"
  | None => "{}"
  end.

Fixpoint join (ss : list string) : string :=
  match ss with
  | [] => EmptyString
  | [x] => x
  | x :: ss' => x +:+ "," +:+ join ss'
  end.

Definition listBody (names : list string) : string :=
  "{" +:+ dquote +:+ "namespaces" +:+ dquote +:+ ":["
      +:+ join (map recordBody names) +:+ "]}".

Fixpoint stripPrefix (prefix s : string) : option string :=
  match prefix, s with
  | EmptyString, _ => Some s
  | String p prefix', String c s' =>
      if Ascii.eqb c p then stripPrefix prefix' s' else None
  | String _ _, EmptyString => None
  end.

(** The name a creation payload asks for. *)
Definition requested (body : string) : option string :=
  match json.Parse body with
  | Some (json.Object [(k, json.Str name)]) =>
      if String.eqb k "namespace" then Some name else None
  | _ => None
  end.

Definition has (w : list string) (name : string) : bool :=
  existsb (String.eqb name) w.

Definition noRoute := errors_New "no route matches the request".

Definition serve (cfg : config) (r : http.Request) (w : list string)
  : (http.Response + error) * list string :=
  if http.isGET r then
    if String.eqb (http.URL r) (base cfg +:+ "/dockyard/v2/visible/namespaces")
    then (inl (ok (listBody w)), w)
    else
      match stripPrefix (base cfg +:+ "/dockyard/v2/namespaces/") (http.URL r) with
      | Some name =>
          if has w name then (inl (ok (recordBody name)), w)
          else (inl (absent cfg), w)
      | None => (inr noRoute, w)
      end
  else if http.isPOST r
          && String.eqb (http.URL r) (base cfg +:+ "/dockyard/v2/namespaces")
  then
    match from_option requested None (http.ReqBody r) with
    | Some name =>
        if has w name
        then (inl (http.mkResponse 409 ("namespace exists", None)), w)
        else if (quota cfg <=? length w)%nat
        then (inl (http.mkResponse 500 ("quota exceeded", None)), w)
        else (inl (ok EmptyString), (w ++ [name])%list)
    | None => (inl (http.mkResponse 400 ("bad request", None)), w)
    end
  else (inr noRoute, w).

(** [url.Parse] refuses a URL that holds a control byte. *)
Definition url_Parse (rawURL : string) : option error :=
  if existsb (λ c, (N_of_ascii c <? 32)%N || (N_of_ascii c =? 127)%N)
       (list_ascii_of_string rawURL)
  then Some (errors_New "net/url: invalid control character in URL")
  else None.

Definition env (cfg : config) : Env :=
  mkEnv (list string) url_Parse (serve cfg) regexp.MatchString
    json.Unmarshal_otcNamespaceList json.Unmarshal_otcNamespace
    json.Marshal_namespace.

(** The remote of the adapter's test. *)
Definition tested : config := mkConfig "https://swr.test" (ok "{}") 100.

(** The same remote, with room for one namespace. *)
Definition small : config := mkConfig "https://swr.test" (ok "{}") 1.

(** A remote that answers the lookup of a missing name with status 404. *)
Definition strict : config :=
  mkConfig "https://swr.test" (http.mkResponse 404 ("not found", None)) 100.

(** A remote that is down: it answers every request with status 503. *)
Definition down : Env :=
  mkEnv unit url_Parse
    (λ _ w, (inl (http.mkResponse 503 ("service unavailable", None)), w))
    regexp.MatchString json.Unmarshal_otcNamespaceList
    json.Unmarshal_otcNamespace json.Marshal_namespace.

(** A remote whose connection drops for the requests that [fails] picks;
    the others it answers with status 200 and an empty object. *)
Definition dropping (fails : http.Request → bool) : Env :=
  mkEnv unit url_Parse
    (λ r w, if fails r
            then (inr (errors_New "connection reset by peer"), w)
            else (inl (http.mkResponse 200 ("{}", None)), w))
    regexp.MatchString json.Unmarshal_otcNamespaceList
    json.Unmarshal_otcNamespace json.Marshal_namespace.

(** The record the remote keeps for a name. *)
Definition record (name : string) : otcNamespace :=
  mkOtcNamespace 0 name EmptyString 0 0 EmptyString 0 0.

Definition swr : adapter := mkAdapter "https://swr.test".

(** A fresh run against the remote holding [names]. *)
Definition start (cfg : config) (names : list string) : State (env cfg) :=
  mkState (env := env cfg) names [].

(** Two map orders: that of [elements], and its reverse. *)
Definition forward : RangeOrder :=
  mkRangeOrder elements (λ m, Permutation_refl (elements m)).

Definition backward : RangeOrder :=
  mkRangeOrder (λ m, rev (elements m))
    (λ m, Permutation_sym (Permutation_rev (elements m))).

Definition resource (name : string) : model.Resource.t :=
  model.Resource.mk (model.ResourceMetadata.mk (model.Repository.mk name) []).

Definition query (name : string) : model.NamespaceQuery.t :=
  model.NamespaceQuery.mk name.

End remote.

(** ** The operations as the specification words them *)

Module Spec.

Definition isWhitespace (c : ascii) : bool :=
  let n := N_of_ascii c in
  ((n =? 32) || ((9 <=? n) && (n <=? 13)))%N.

(** The query with its white space removed: the ASCII characters for which
    [unicode.IsSpace] holds. *)
Fixpoint cleaned (q : string) : string :=
  match q with
  | EmptyString => EmptyString
  | String c q' => if isWhitespace c then cleaned q' else String c (cleaned q')
  end.

(** The records whose name contains the cleaned query, in their order. *)
Definition listNamespaces (q : string) (N : list otcNamespace)
  : list model.Namespace.t :=
  map (λ d, model.Namespace.mk (Name d) (metadata d))
    (filter (λ d, strings.Contains (Name d) (cleaned q) = true) N).

(** The first non-empty segment of a repository name split on [/]. *)
Definition candidate (name : string) : string :=
  match filter (λ seg, seg ≠ EmptyString) (strings.Split name "/") with
  | seg :: _ => seg
  | [] => EmptyString
  end.

End Spec.

(** ** Notions the statements use *)

(** The namespace the adapter makes of a remote record. *)
Definition namespaceOf (d : otcNamespace) : model.Namespace.t :=
  model.Namespace.mk (Name d) (metadata d).

(** The keys of every metadata map the adapter builds. *)
Definition metadataKeys : gset string :=
  {[ "id"; "creator_name"; "domain_public"; "auth"; "domain_name";
     "user_count"; "image_count" ]}.

(** The record's name matched the pattern. *)
Definition matched (env : Env) (reg : string) (d : otcNamespace) : bool :=
  match regexp_MatchString env reg (Name d) with
  | inl b => b
  | inr _ => false
  end.

(** The pattern was accepted for the record's name. *)
Definition accepted (env : Env) (reg : string) (d : otcNamespace) : Prop :=
  ∃ b, regexp_MatchString env reg (Name d) = inl b.

(** The requests of a run: those in the log of [st'] behind the log of [st]. *)
Definition requests {env : Env} (st st' : State env) : list http.Request :=
  drop (length (sent st)) (sent st').

(** What [GetNamespace] makes of the answer to its request. *)
Definition lookupResult (env : Env) (answer : http.Response + error)
  : model.Namespace.t * option error :=
  match answer with
  | inr err => (unsetNamespace, Some err)
  | inl resp =>
      if badStatus (http.StatusCode resp)
      then (unsetNamespace,
            Some (statusError (http.StatusCode resp) (fst (http.Body resp))))
      else
        match http.Body resp with
        | (_, Some err) => (unsetNamespace, Some err)
        | (body, None) =>
            match json_Unmarshal_otcNamespace env body with
            | inr err => (unsetNamespace, Some err)
            | inl d => (namespaceOf d, None)
            end
        end
  end.

(** The existence check of [PrepareForPush] holds for [c] in the remote
    state [w]: the lookup of [c] succeeds with a namespace named [c]. *)
Definition present (env : Env) (a : adapter) (w : World env) (c : string) : bool :=
  match url_Parse env (lookupURL a c) with
  | Some _ => false
  | None =>
      match lookupResult env (fst (client_Do env (lookupRequest a c) w)) with
      | (ns, None) => String.eqb (model.Namespace.Name ns) c
      | (_, Some _) => false
      end
  end.

(** One request takes the remote from [w] to [w']. *)
Definition answers (env : Env) (w w' : World env) : Prop :=
  ∃ r, w' = snd (client_Do env r w).

(** A list begins with another, and holds another as a run. *)
Fixpoint hasPrefixL (s l : list Z) : bool :=
  match l, s with
  | [], _ => true
  | _ :: _, [] => false
  | x :: l', y :: s' => (y =? x)%Z && hasPrefixL s' l'
  end.

Fixpoint containsL (s l : list Z) : bool :=
  hasPrefixL s l ||
  match s with
  | [] => false
  | _ :: s' => containsL s' l
  end.

(** The language of an expression. *)
Inductive matches : regexp.re → list Z → Prop :=
| matches_Eps : matches regexp.Eps []
| matches_Lit c : matches (regexp.Lit c) [c]
| matches_AnyNotNL c : c ≠ 10%Z → matches regexp.AnyNotNL [c]
| matches_Cat a b s t :
    matches a s → matches b t → matches (regexp.Cat a b) (s ++ t)
| matches_Alt_l a b s : matches a s → matches (regexp.Alt a b) s
| matches_Alt_r a b s : matches b s → matches (regexp.Alt a b) s
| matches_Star_nil a : matches (regexp.Star a) []
| matches_Star_cons a s t :
    matches a s → matches (regexp.Star a) t → matches (regexp.Star a) (s ++ t).

(** A byte that stands for itself in a pattern: an ASCII character that is
    none of [\ . + * ? ( ) | [ { ^ $]. *)
Definition plain (c : ascii) : bool :=
  let n := N_of_ascii c in
  (n <? 128)%N
  && negb (existsb (N.eqb n) [92; 46; 43; 42; 63; 40; 41; 124; 91; 123; 94; 36]%N).

(** A string of plain bytes. *)
Definition literal (s : string) : bool :=
  forallb plain (list_ascii_of_string s).

(** The pattern of a literal: [.*], the literal's runes, [.*]. *)
Definition anywhere (lits : list Z) : regexp.re :=
  regexp.Cat (regexp.Star regexp.AnyNotNL)
    (fold_right (λ c r, regexp.Cat (regexp.Lit c) r)
       (regexp.Cat (regexp.Star regexp.AnyNotNL) regexp.Eps) lits).

(** The parser after the plain bytes [lits]. *)
Fixpoint pushed (lits : list ascii) (p : regexp.parser) : regexp.parser :=
  match lits with
  | [] => p
  | c :: lits' =>
      pushed lits' (regexp.push p (regexp.Lit (Z.of_N (N_of_ascii c))))
  end.

(** A candidate is unconfirmed in a run of [PrepareForPush] over
    [resources] from [st] when the lookup made for some resource with that
    candidate, after the resources before it, returned without an error a
    namespace of another name. *)
Definition unconfirmed (env : Env) (a : adapter)
    (resources : list model.Resource.t) (st : State env) (k : string) : Prop :=
  ∃ pre resource post namespaces st0 ns st1,
    resources = (pre ++ resource :: post)%list
    ∧ candidate resource = k
    ∧ rangeResources env a pre ∅ st = (inl namespaces, st0)
    ∧ GetNamespace env a k st0 = ((ns, None), st1)
    ∧ model.Namespace.Name ns ≠ k.

(* ================================================================= *)
(** * Properties *)

(** ** Strings *)

Lemma append_cons (c : ascii) (s t : string) :
  String c s +:+ t = String c (s +:+ t).
Proof. reflexivity. Qed.

Lemma append_nil_r (s : string) : s +:+ EmptyString = s.
Proof. induction s as [|c s IH]; [done|]. by rewrite append_cons, IH. Qed.

Lemma append_assoc (s t u : string) : (s +:+ t) +:+ u = s +:+ (t +:+ u).
Proof. induction s as [|c s IH]; [done|]. by rewrite !append_cons, IH. Qed.

Lemma list_ascii_of_string_app (s t : string) :
  list_ascii_of_string (s +:+ t)
  = (list_ascii_of_string s ++ list_ascii_of_string t)%list.
Proof.
  induction s as [|c s IH]; [done|]. rewrite append_cons. simpl.
  by rewrite IH.
Qed.

(** ** UTF-8 *)

Lemma lor_lower (a b : Z) : (0 ≤ a)%Z → (0 ≤ b)%Z → (a ≤ Z.lor a b)%Z.
Proof.
  intros Ha Hb. apply Z.ldiff_le; [by apply Z.lor_nonneg|].
  apply Z.bits_inj'. intros n Hn.
  rewrite Z.ldiff_spec, Z.lor_spec, Z.bits_0.
  by destruct (Z.testbit a n), (Z.testbit b n).
Qed.

Lemma lor_lower_r (a b : Z) : (0 ≤ a)%Z → (0 ≤ b)%Z → (b ≤ Z.lor a b)%Z.
Proof. intros. rewrite Z.lor_comm. by apply lor_lower. Qed.

Lemma land_low_nonneg (b m : Z) : (0 ≤ b)%Z → (0 ≤ Z.land b m)%Z.
Proof. intros. apply Z.land_nonneg. by left. Qed.

Lemma shifted_nonneg (b m k : Z) :
  (0 ≤ b)%Z → (0 ≤ Z.shiftl (Z.land b m) k)%Z.
Proof. intros. apply Z.shiftl_nonneg. by apply land_low_nonneg. Qed.

Lemma land_31 (b : Z) : Z.land b 31 = (b mod 32)%Z.
Proof. change 31%Z with (Z.ones 5). by rewrite Z.land_ones. Qed.

Lemma land_15 (b : Z) : Z.land b 15 = (b mod 16)%Z.
Proof. change 15%Z with (Z.ones 4). by rewrite Z.land_ones. Qed.

Lemma land_7 (b : Z) : Z.land b 7 = (b mod 8)%Z.
Proof. change 7%Z with (Z.ones 3). by rewrite Z.land_ones. Qed.

Lemma land_63 (b : Z) : Z.land b 63 = (b mod 64)%Z.
Proof. change 63%Z with (Z.ones 6). by rewrite Z.land_ones. Qed.

Lemma cont_high (b : Z) : utf8.cont b = true → (128 ≤ b)%Z.
Proof. unfold utf8.cont. lia. Qed.

(** A rune that starts with an ASCII byte is that byte; a rune that starts
    with another byte is not ASCII, and neither are the bytes it spans. *)
Lemma DecodeRune_cases (b : Z) (p : list Z) :
  (0 ≤ b)%Z →
  ((b < 128)%Z ∧ utf8.DecodeRune (b :: p) = (b, 1%nat))
  ∨ ((128 ≤ b)%Z
     ∧ ∃ r w, utf8.DecodeRune (b :: p) = (r, S w)
              ∧ (128 ≤ r)%Z ∧ (w ≤ length p)%nat
              ∧ Forall (λ x, (128 ≤ x)%Z) (take w p)).
Proof.
  intros Hb. unfold utf8.DecodeRune.
  assert (∀ q : list Z, (128 ≤ b)%Z →
            (128 ≤ b)%Z
            ∧ ∃ r w, (utf8.RuneError, 1%nat) = (r, S w)
                     ∧ (128 ≤ r)%Z ∧ (w ≤ length q)%nat
                     ∧ Forall (λ x, (128 ≤ x)%Z) (take w q)) as Herr.
  { intros q ?. split; [done|]. exists utf8.RuneError, 0%nat.
    unfold utf8.RuneError. rewrite take_0. split_and!; [done|lia|lia|done]. }
  destruct (Z.ltb_spec b 128) as [L1|L1]; [by left|]. right.
  destruct (Z.ltb_spec b 194) as [L2|L2]; [by apply Herr|].
  destruct (Z.ltb_spec b 224) as [L3|L3].
  { destruct p as [|b1 p]; [by apply Herr|].
    destruct (utf8.cont b1) eqn:H0; [|by apply Herr].
    apply cont_high in H0. split; [done|]. eexists _, 1%nat.
    split_and!; [done| |simpl; lia|by repeat constructor].
    etrans; [|apply lor_lower; [by apply shifted_nonneg|apply land_low_nonneg; lia]].
    rewrite land_31, Z.shiftl_mul_pow2 by lia.
    change (2 ^ 6)%Z with 64%Z. Z.div_mod_to_equations. lia. }
  destruct (Z.ltb_spec b 240) as [L4|L4].
  { destruct p as [|b1 [|b2 p]]; [by apply Herr..|].
    destruct (utf8.inRange _ _ b1 && utf8.cont b2) eqn:H0; [|by apply Herr].
    apply andb_true_iff in H0 as [H1 H2%cont_high]. unfold utf8.inRange in H1.
    assert (128 ≤ b1 ∧ (b = 224 → 160 ≤ b1 ≤ 191))%Z as [Hb1 Hb1'].
    { destruct (Z.eqb_spec b 224), (Z.eqb_spec b 237); lia. }
    split; [done|]. eexists _, 2%nat.
    split_and!; [done| |simpl; lia|by repeat constructor].
    destruct (Z.eq_dec b 224) as [->|Hne].
    - etrans; [|apply lor_lower_r; [done|]].
      2:{ apply Z.lor_nonneg. split; [apply shifted_nonneg|apply land_low_nonneg]; lia. }
      etrans; [|apply lor_lower; [apply shifted_nonneg|apply land_low_nonneg]; lia].
      rewrite land_63, Z.shiftl_mul_pow2 by lia.
      change (2 ^ 6)%Z with 64%Z. Z.div_mod_to_equations. lia.
    - etrans; [|apply lor_lower; [apply shifted_nonneg; lia|]].
      2:{ apply Z.lor_nonneg. split; [apply shifted_nonneg|apply land_low_nonneg]; lia. }
      rewrite land_15, Z.shiftl_mul_pow2 by lia.
      change (2 ^ 12)%Z with 4096%Z. Z.div_mod_to_equations. lia. }
  destruct (Z.ltb_spec b 245) as [L5|L5]; [|by apply Herr].
  destruct p as [|b1 [|b2 [|b3 p]]]; [by apply Herr..|].
  destruct (utf8.inRange _ _ b1 && utf8.cont b2 && utf8.cont b3) eqn:H0;
    [|by apply Herr].
  apply andb_true_iff in H0 as [H0 H3%cont_high].
  apply andb_true_iff in H0 as [H1 H2%cont_high]. unfold utf8.inRange in H1.
  assert (128 ≤ b1 ∧ (b = 240 → 144 ≤ b1 ≤ 191))%Z as [Hb1 Hb1'].
  { destruct (Z.eqb_spec b 240), (Z.eqb_spec b 244); lia. }
  split; [done|]. eexists _, 3%nat.
  split_and!; [done| |simpl; lia|by repeat constructor].
  assert (0 ≤ Z.lor (Z.shiftl (Z.land b2 63) 6) (Z.land b3 63))%Z as Hlow.
  { apply Z.lor_nonneg. split; [apply shifted_nonneg|apply land_low_nonneg]; lia. }
  destruct (Z.eq_dec b 240) as [->|Hne].
  - etrans; [|apply lor_lower_r; [done|]].
    2:{ apply Z.lor_nonneg. split; [apply shifted_nonneg; lia|done]. }
    etrans; [|apply lor_lower; [apply shifted_nonneg; lia|done]].
    rewrite land_63, Z.shiftl_mul_pow2 by lia.
    change (2 ^ 12)%Z with 4096%Z. Z.div_mod_to_equations. lia.
  - etrans; [|apply lor_lower; [apply shifted_nonneg; lia|]].
    2:{ apply Z.lor_nonneg. split; [apply shifted_nonneg; lia|done]. }
    rewrite land_7, Z.shiftl_mul_pow2 by lia.
    change (2 ^ 18)%Z with 262144%Z. Z.div_mod_to_equations. lia.
Qed.

Lemma runes_from_skip (k : nat) (p : list Z) :
  utf8.runes_from k p = utf8.runes_from 0 (drop k p).
Proof.
  revert k. induction p as [|x p IH]; intros k; [by destruct k|].
  destruct k as [|k]; [done|]. simpl. apply IH.
Qed.

Lemma runes_from_ascii (b : Z) (p : list Z) :
  (0 ≤ b < 128)%Z →
  utf8.runes_from 0 (b :: p) = b :: utf8.runes_from 0 p.
Proof.
  intros [? ?]. destruct (DecodeRune_cases b p) as [[_ Hd]|[? _]]; [done| |lia].
  change (utf8.runes_from 0 (b :: p))
    with (let (r, w) := utf8.DecodeRune (b :: p) in
          r :: utf8.runes_from (w - 1) p).
  by rewrite Hd.
Qed.

Lemma runes_from_high (b : Z) (p : list Z) :
  (128 ≤ b)%Z →
  ∃ r w, utf8.runes_from 0 (b :: p) = r :: utf8.runes_from 0 (drop w p)
         ∧ (128 ≤ r)%Z ∧ (w ≤ length p)%nat
         ∧ Forall (λ x, (128 ≤ x)%Z) (take w p).
Proof.
  intros ?. destruct (DecodeRune_cases b p) as [[? _]|[_ (r & w & Hd & ?)]];
    [lia|lia|].
  exists r, w. split; [|done].
  change (utf8.runes_from 0 (b :: p))
    with (let (r, w) := utf8.DecodeRune (b :: p) in
          r :: utf8.runes_from (w - 1) p).
  rewrite Hd. simpl. by rewrite Nat.sub_0_r, runes_from_skip.
Qed.

(** A string of ASCII bytes is valid, and its runes are its bytes. *)
Lemma runes_ascii (p : list Z) :
  Forall (λ x, (0 ≤ x < 128)%Z) p →
  utf8.runes_from 0 p = p ∧ utf8.valid_from 0 p = true.
Proof.
  induction 1 as [|b p Hb _ [IH1 IH2]]; [done|]. split.
  - by rewrite runes_from_ascii, IH1.
  - destruct (DecodeRune_cases b p) as [[_ Hd]|[? _]]; [lia| |lia].
    change (utf8.valid_from 0 (b :: p))
      with (let (r, w) := utf8.DecodeRune (b :: p) in
            negb ((r =? utf8.RuneError)%Z && (w =? 1)%nat)
            && utf8.valid_from (w - 1) p).
    rewrite Hd. simpl. rewrite IH2. unfold utf8.RuneError.
    destruct (Z.eqb_spec b 65533); [lia|done].
Qed.

Lemma hasPrefixL_high (b : Z) (s l : list Z) (c : Z) :
  (c < 128)%Z → (128 ≤ b)%Z → hasPrefixL (b :: s) (c :: l) = false.
Proof. intros. simpl. destruct (Z.eqb_spec b c); [lia|done]. Qed.

Lemma containsL_nil (s : list Z) : containsL s [] = true.
Proof. by destruct s. Qed.

(** Bytes that are not ASCII cannot start a run of ASCII bytes. *)
Lemma containsL_skip_high (w : nat) (s l : list Z) (c : Z) :
  (c < 128)%Z → (w ≤ length s)%nat →
  Forall (λ x, (128 ≤ x)%Z) (take w s) →
  containsL s (c :: l) = containsL (drop w s) (c :: l).
Proof.
  intros Hc. revert s. induction w as [|w IH]; intros s Hw Hall; [done|].
  destruct s as [|b s]; [simpl in Hw; lia|].
  rewrite firstn_cons in Hall. apply Forall_cons in Hall as [Hb Hall].
  change (containsL (b :: s) (c :: l))
    with (hasPrefixL (b :: s) (c :: l) || containsL s (c :: l)).
  rewrite hasPrefixL_high by done. simpl in Hw. simpl. apply IH; [lia|done].
Qed.

Lemma hasPrefixL_runes (l p : list Z) :
  Forall (λ x, (0 ≤ x < 128)%Z) l → Forall (λ x, (0 ≤ x)%Z) p →
  hasPrefixL (utf8.runes_from 0 p) l = hasPrefixL p l.
Proof.
  intros Hl. revert p. induction Hl as [|c l Hc _ IH]; intros p Hp.
  { by destruct p, (utf8.runes_from 0 _). }
  destruct Hp as [|b p Hb Hp]; [done|].
  destruct (Z.lt_ge_cases b 128).
  - rewrite runes_from_ascii by done. simpl. by rewrite IH.
  - destruct (runes_from_high b p) as (r & w & -> & ? & _); [done|].
    rewrite !hasPrefixL_high; [done|lia..].
Qed.

Lemma containsL_cons (x : Z) (s l : list Z) :
  containsL (x :: s) l = hasPrefixL (x :: s) l || containsL s l.
Proof. reflexivity. Qed.

(** An ASCII run is found among the runes of a string exactly when it is
    found among its bytes. *)
Lemma containsL_runes (l p : list Z) :
  Forall (λ x, (0 ≤ x < 128)%Z) l → Forall (λ x, (0 ≤ x)%Z) p →
  containsL (utf8.runes_from 0 p) l = containsL p l.
Proof.
  intros Hl. destruct Hl as [|c l Hc Hl].
  { intros _. by rewrite !containsL_nil. }
  intros Hp. remember (length p) as n eqn:Hn. revert p Hp Hn.
  induction (lt_wf n) as [n _ IH]. intros p Hp ->.
  destruct Hp as [|b p Hb Hp]; [done|].
  destruct (Z.lt_ge_cases b 128).
  - rewrite (containsL_cons b p), <- (hasPrefixL_runes (c :: l) (b :: p))
      by (by constructor).
    rewrite runes_from_ascii by done. rewrite containsL_cons. f_equal.
    eapply IH; [|done|done]. simpl. lia.
  - destruct (runes_from_high b p) as (r & w & -> & ? & Hw & Hhigh); [done|].
    rewrite !containsL_cons, !hasPrefixL_high by lia. simpl.
    rewrite (containsL_skip_high w p) by (done || lia).
    eapply IH; [|by apply Forall_drop|done].
    rewrite length_drop. simpl. lia.
Qed.

Lemma byte_range (c : ascii) : (0 ≤ Z.of_N (N_of_ascii c) < 256)%Z.
Proof. pose proof (N_ascii_bounded c). lia. Qed.

Lemma bytes_nonneg (s : string) : Forall (λ x, (0 ≤ x)%Z) (utf8.bytes s).
Proof.
  unfold utf8.bytes. apply Forall_fmap, Forall_true. intros c. simpl.
  pose proof (byte_range c). lia.
Qed.

Lemma byte_eqb (c d : ascii) :
  (Z.of_N (N_of_ascii c) =? Z.of_N (N_of_ascii d))%Z = Ascii.eqb c d.
Proof.
  destruct (Ascii.eqb_spec c d) as [->|Hne]; [apply Z.eqb_refl|].
  apply Z.eqb_neq. intros Heq%N2Z.inj. apply Hne.
  by rewrite <- (ascii_N_embedding c), <- (ascii_N_embedding d), Heq.
Qed.

Lemma bytes_cons (c : ascii) (s : string) :
  utf8.bytes (String c s) = Z.of_N (N_of_ascii c) :: utf8.bytes s.
Proof. reflexivity. Qed.

Lemma bytes_app (s t : string) :
  utf8.bytes (s +:+ t) = (utf8.bytes s ++ utf8.bytes t)%list.
Proof. unfold utf8.bytes. by rewrite list_ascii_of_string_app, map_app. Qed.

Lemma HasPrefix_bytes (s prefix : string) :
  strings.HasPrefix s prefix = hasPrefixL (utf8.bytes s) (utf8.bytes prefix).
Proof.
  revert s. induction prefix as [|p prefix IH]; intros s; [by destruct s|].
  destruct s as [|c s]; [by rewrite bytes_cons|].
  rewrite !bytes_cons. simpl. by rewrite byte_eqb, IH.
Qed.

(** [strings.Contains] looks for the bytes of the substring. *)
Lemma Contains_bytes (s substr : string) :
  strings.Contains s substr = containsL (utf8.bytes s) (utf8.bytes substr).
Proof.
  induction s as [|c s IH].
  - change (strings.HasPrefix EmptyString substr || false
            = hasPrefixL (utf8.bytes EmptyString) (utf8.bytes substr) || false).
    by rewrite HasPrefix_bytes.
  - change (strings.HasPrefix (String c s) substr || strings.Contains s substr
            = containsL (utf8.bytes (String c s)) (utf8.bytes substr)).
    by rewrite bytes_cons, containsL_cons, <- bytes_cons, <- HasPrefix_bytes, IH.
Qed.

Lemma literal_bytes (s : string) :
  literal s = true → Forall (λ x, (0 ≤ x < 128)%Z) (utf8.bytes s).
Proof.
  unfold literal, utf8.bytes. intros H. apply Forall_fmap, Forall_forall.
  intros c Hc. rewrite forallb_forall in H.
  apply list_elem_of_In, H in Hc. unfold plain in Hc.
  apply andb_true_iff in Hc as [Hc%N.ltb_lt _]. simpl. lia.
Qed.


(** ** The matcher and the language of an expression *)

Lemma nullable_spec (r : regexp.re) :
  regexp.nullable r = true ↔ matches r [].
Proof.
  split.
  - induction r as [| | | |a IHa b IHb|a IHa b IHb|a IHa]; simpl; try done.
    + intros _. constructor.
    + intros [? ?]%andb_true_iff. apply (matches_Cat a b [] []); auto.
    + intros [?|?]%orb_true_iff; [apply matches_Alt_l|apply matches_Alt_r]; auto.
    + intros _. constructor.
  - intros H. remember [] as s eqn:Hs.
    induction H as [| | |a b s t _ IHa _ IHb|a b s _ IH|a b s _ IH| |];
      simpl; try done.
    + apply app_eq_nil in Hs as [-> ->]. by rewrite IHa, IHb.
    + by rewrite IH.
    + rewrite IH by done. apply orb_true_r.
Qed.

Lemma matches_Star_inv (a : regexp.re) (c : Z) (s : list Z) :
  matches (regexp.Star a) (c :: s) →
  ∃ s1 s2, s = (s1 ++ s2)%list ∧ matches a (c :: s1)
           ∧ matches (regexp.Star a) s2.
Proof.
  intros H. remember (regexp.Star a) as r eqn:Hr.
  remember (c :: s) as cs eqn:Hcs. revert Hcs.
  induction H as [| | | | | | |a' s1 t H1 _ H2 IH]; try done.
  injection Hr as ->. intros Hcs. destruct s1 as [|c' s1].
  - by apply IH.
  - injection Hcs as -> <-. by exists s1, t.
Qed.

Lemma matches_Never_inv (p : list Z) : ¬ matches regexp.Never p.
Proof. inversion 1. Qed.

Lemma matches_Eps_inv (p : list Z) : matches regexp.Eps p → p = [].
Proof. by inversion 1. Qed.

Lemma matches_Lit_inv (c : Z) (p : list Z) :
  matches (regexp.Lit c) p → p = [c].
Proof. by inversion 1. Qed.

Lemma matches_AnyNotNL_inv (p : list Z) :
  matches regexp.AnyNotNL p → ∃ c, p = [c] ∧ c ≠ 10%Z.
Proof. inversion 1; eauto. Qed.

Lemma matches_Cat_inv (a b : regexp.re) (p : list Z) :
  matches (regexp.Cat a b) p →
  ∃ s t, p = (s ++ t)%list ∧ matches a s ∧ matches b t.
Proof. inversion 1; eauto. Qed.

Lemma matches_Alt_inv (a b : regexp.re) (p : list Z) :
  matches (regexp.Alt a b) p → matches a p ∨ matches b p.
Proof. inversion 1; eauto. Qed.

Lemma deriv_spec (c : Z) (r : regexp.re) (s : list Z) :
  matches (regexp.deriv c r) s ↔ matches r (c :: s).
Proof.
  revert s. induction r as [| |d| |a IHa b IHb|a IHa b IHb|a IHa]; intros s; simpl.
  - split; [by intros ?%matches_Never_inv|by intros ?%matches_Never_inv].
  - split; [by intros ?%matches_Never_inv|by intros ?%matches_Eps_inv].
  - destruct (Z.eqb_spec c d) as [->|Hne]; split.
    + intros ->%matches_Eps_inv. constructor.
    + intros [= ->]%matches_Lit_inv. constructor.
    + by intros ?%matches_Never_inv.
    + intros [= ? ?]%matches_Lit_inv. done.
  - destruct (Z.eqb_spec c 10) as [->|Hne]; split.
    + by intros ?%matches_Never_inv.
    + intros (c' & [= <- _] & ?)%matches_AnyNotNL_inv. done.
    + intros ->%matches_Eps_inv. by constructor.
    + intros (c' & [= <- ->] & ?)%matches_AnyNotNL_inv. constructor.
  - assert (matches (regexp.Cat (regexp.deriv c a) b) s
            → matches (regexp.Cat a b) (c :: s)) as Hl.
    { intros (s1 & s2 & -> & H1%IHa & H2)%matches_Cat_inv.
      by apply (matches_Cat a b (c :: s1) s2). }
    assert (matches (regexp.Cat a b) (c :: s)
            → matches (regexp.Cat (regexp.deriv c a) b) s
              ∨ matches a [] ∧ matches (regexp.deriv c b) s) as Hr.
    { intros (s1 & s2 & Heq & H1 & H2)%matches_Cat_inv.
      destruct s1 as [|c' s1]; simpl in Heq; subst.
      - right. split; [done|]. by apply IHb.
      - injection Heq as -> ->. left. constructor; [by apply IHa|done]. }
    destruct (regexp.nullable a) eqn:Hn.
    + split.
      * intros [H|H%IHb]%matches_Alt_inv; [by apply Hl|].
        apply nullable_spec in Hn. by apply (matches_Cat a b [] (c :: s)).
      * intros [H|[_ H]]%Hr; [by apply matches_Alt_l|by apply matches_Alt_r].
    + split; [done|]. intros [H|[H%nullable_spec _]]%Hr; [done|congruence].
  - split.
    + intros [H%IHa|H%IHb]%matches_Alt_inv;
        [by apply matches_Alt_l|by apply matches_Alt_r].
    + intros [H|H]%matches_Alt_inv;
        [apply matches_Alt_l; by apply IHa|apply matches_Alt_r; by apply IHb].
  - split.
    + intros (s1 & s2 & -> & H1%IHa & H2)%matches_Cat_inv.
      by apply (matches_Star_cons a (c :: s1) s2).
    + intros (s1 & s2 & -> & H1 & H2)%matches_Star_inv.
      constructor; [by apply IHa|done].
Qed.

Lemma matchPrefix_spec (r : regexp.re) (s : list Z) :
  regexp.matchPrefix r s = true ↔ ∃ p t, s = (p ++ t)%list ∧ matches r p.
Proof.
  revert r. induction s as [|c s IH]; intros r; simpl.
  - rewrite orb_false_r, nullable_spec. split.
    + intros H. by exists [], [].
    + intros (p & t & [-> ->]%eq_sym%app_eq_nil & H). done.
  - rewrite orb_true_iff, nullable_spec, IH. split.
    + intros [H|(p & t & -> & H%deriv_spec)].
      * by exists [], (c :: s).
      * by exists (c :: p), t.
    + intros (p & t & Heq & H). destruct p as [|c' p]; [by left|].
      injection Heq as <- ->. right. exists p, t. by rewrite deriv_spec.
Qed.

Lemma search_spec (r : regexp.re) (s : list Z) :
  regexp.search r s = true ↔
  ∃ u p t, s = (u ++ p ++ t)%list ∧ matches r p.
Proof.
  induction s as [|c s IH].
  - change (regexp.matchPrefix r [] || false = true
            ↔ ∃ u p t, [] = (u ++ p ++ t)%list ∧ matches r p).
    rewrite orb_false_r, matchPrefix_spec. split.
    + intros (p & t & -> & H). by exists [], p, t.
    + intros (u & p & t & Heq & H). symmetry in Heq.
      apply app_eq_nil in Heq as [-> Heq]. by exists p, t.
  - change (regexp.matchPrefix r (c :: s) || regexp.search r s = true
            ↔ ∃ u p t, c :: s = (u ++ p ++ t)%list ∧ matches r p).
    rewrite orb_true_iff, matchPrefix_spec, IH. split.
    + intros [(p & t & -> & H)|(u & p & t & -> & H)].
      * by exists [], p, t.
      * by exists (c :: u), p, t.
    + intros (u & p & t & Heq & H). destruct u as [|c' u].
      * left. by exists p, t.
      * injection Heq as <- ->. right. by exists u, p, t.
Qed.

Lemma hasPrefixL_spec (s l : list Z) :
  hasPrefixL s l = true ↔ ∃ t, s = (l ++ t)%list.
Proof.
  revert s. induction l as [|x l IH]; intros s.
  { destruct s; split; eauto. }
  destruct s as [|y s].
  { split; [done|]. by intros (t & ?). }
  change (hasPrefixL (y :: s) (x :: l)) with ((y =? x)%Z && hasPrefixL s l).
  rewrite andb_true_iff, IH, Z.eqb_eq. split.
  - intros (-> & t & ->). by exists t.
  - intros (t & [= -> ->]). eauto.
Qed.

Lemma containsL_spec (s l : list Z) :
  containsL s l = true ↔ ∃ u t, s = (u ++ l ++ t)%list.
Proof.
  induction s as [|c s IH].
  - change (hasPrefixL [] l || false = true
            ↔ ∃ u t, [] = (u ++ l ++ t)%list).
    rewrite orb_false_r, hasPrefixL_spec. split.
    + intros (t & ->). by exists [], t.
    + intros (u & t & Heq). symmetry in Heq.
      apply app_eq_nil in Heq as [-> Heq]. by exists t.
  - change (hasPrefixL (c :: s) l || containsL s l = true
            ↔ ∃ u t, c :: s = (u ++ l ++ t)%list).
    rewrite orb_true_iff, hasPrefixL_spec, IH. split.
    + intros [(t & ->)|(u & t & ->)]; [by exists [], t|by exists (c :: u), t].
    + intros (u & t & Heq). destruct u as [|c' u].
      * left. by exists t.
      * injection Heq as <- ->. right. by exists u, t.
Qed.

Lemma matches_chain (base : regexp.re) (lits p : list Z) :
  matches (fold_right (λ c r, regexp.Cat (regexp.Lit c) r) base lits) p ↔
  ∃ y, p = (lits ++ y)%list ∧ matches base y.
Proof.
  revert p. induction lits as [|c lits IH]; intros p; simpl.
  - split; [by exists p|]. by intros (y & -> & H).
  - split.
    + intros (s1 & s2 & -> & ->%matches_Lit_inv & H2)%matches_Cat_inv.
      apply IH in H2 as (y & -> & H2). by exists y.
    + intros (y & -> & H).
      apply (matches_Cat (regexp.Lit c) _ [c] (lits ++ y)); [constructor|].
      apply IH. by exists y.
Qed.

(** The expression of a literal's pattern finds the literal's runs. *)
Lemma search_anywhere (lits s : list Z) :
  regexp.search (anywhere lits) s = containsL s lits.
Proof.
  apply Bool.eq_iff_eq_true. rewrite search_spec, containsL_spec.
  unfold anywhere. split.
  - intros (u & p & t & -> & (x & rest & -> & _ & H2)%matches_Cat_inv).
    apply matches_chain in H2 as (y & -> & _).
    exists (u ++ x)%list, (y ++ t)%list. by rewrite <- !app_assoc.
  - intros (u & t & ->). exists u, lits, t. split; [done|].
    apply (matches_Cat _ _ [] lits); [constructor|].
    apply matches_chain. exists []. rewrite app_nil_r. split; [done|].
    apply (matches_Cat _ _ [] []); constructor.
Qed.

(** ** The parser on a literal *)

Lemma step_plain (p : regexp.parser) (c : ascii) :
  plain c = true → regexp.prev p ≠ regexp.Backslash →
  regexp.step p (Z.of_N (N_of_ascii c))
  = regexp.Parsed (regexp.push p (regexp.Lit (Z.of_N (N_of_ascii c)))).
Proof.
  intros Hc Hp. unfold regexp.step.
  destruct (regexp.prev p); try done;
    destruct c as [[] [] [] [] [] [] [] []]; try discriminate Hc; reflexivity.
Qed.

Lemma parseRunes_cons (c : Z) (t : list Z) (p : regexp.parser) :
  regexp.parseRunes (c :: t) p
  = match regexp.step p c with
    | regexp.Parsed p' => regexp.parseRunes t p'
    | regexp.SyntaxError err => regexp.SyntaxError err
    | regexp.NotModelled => regexp.NotModelled
    end.
Proof. reflexivity. Qed.

Lemma parseRunes_plain (lits : list ascii) (t : list Z) (p : regexp.parser) :
  forallb plain lits = true → regexp.prev p ≠ regexp.Backslash →
  regexp.parseRunes (map (λ c, Z.of_N (N_of_ascii c)) lits ++ t) p
  = regexp.parseRunes t (pushed lits p).
Proof.
  revert p. induction lits as [|c lits IH]; intros p Hall Hp; [done|].
  simpl in Hall. apply andb_true_iff in Hall as [Hc Hall].
  rewrite map_cons, <- app_comm_cons, parseRunes_cons, step_plain by done.
  by apply IH.
Qed.

Lemma pushed_spec (lits : list ascii) (p : regexp.parser) :
  lits ≠ [] →
  pushed lits p
  = regexp.mkParser (regexp.outer p)
      (regexp.mkFrame (regexp.branches (regexp.top p))
         (map (λ c, regexp.Lit (Z.of_N (N_of_ascii c))) (rev lits)
            ++ regexp.pieces (regexp.top p)))
      regexp.Plain.
Proof.
  revert p. induction lits as [|c lits IH]; intros p Hne; [done|].
  simpl. destruct lits as [|c' lits].
  { by destruct p as [o [b ps] l]. }
  rewrite IH by done. simpl.
  by rewrite !map_app, <- !app_assoc.
Qed.

Lemma concat_chain (lits : list Z) (acc : regexp.re) :
  fold_left (λ acc p, regexp.Cat p acc) (map regexp.Lit (rev lits)) acc
  = fold_right (λ c r, regexp.Cat (regexp.Lit c) r) acc lits.
Proof.
  induction lits as [|c lits IH]; [done|].
  simpl. by rewrite map_app, fold_left_app, IH.
Qed.

(** The pattern of a literal compiles to the expression [anywhere]. *)
Lemma Compile_literal (lit : string) :
  literal lit = true →
  regexp.Compile (".*" +:+ lit +:+ ".*") = regexp.Parsed (anywhere (utf8.bytes lit)).
Proof.
  intros Hlit. unfold regexp.Compile, utf8.ValidString, utf8.runes.
  assert (utf8.bytes (".*" +:+ lit +:+ ".*")
          = ([46%Z; 42%Z] ++ utf8.bytes lit ++ [46%Z; 42%Z])%list) as ->.
  { by rewrite !bytes_app. }
  destruct (runes_ascii ([46%Z; 42%Z] ++ utf8.bytes lit ++ [46%Z; 42%Z])%list) as [-> ->].
  { apply Forall_app. split; [repeat constructor; lia|].
    apply Forall_app. split; [by apply literal_bytes|repeat constructor; lia]. }
  change (regexp.parseRunes ([46%Z; 42%Z] ++ utf8.bytes lit ++ [46%Z; 42%Z])%list
            (regexp.mkParser [] (regexp.mkFrame [] []) regexp.Plain))
    with (regexp.parseRunes (utf8.bytes lit ++ [46%Z; 42%Z])%list
            (regexp.mkParser []
               (regexp.mkFrame [] [regexp.Star regexp.AnyNotNL]) regexp.Repeat)).
  unfold utf8.bytes at 1. rewrite parseRunes_plain by done.
  destruct (list_ascii_of_string lit) as [|c lits] eqn:Hl.
  { unfold utf8.bytes. by rewrite Hl. }
  rewrite pushed_spec by done. unfold utf8.bytes. rewrite Hl.
  set (ls := c :: lits).
  change (regexp.Parsed
            (regexp.concat
               (regexp.Star regexp.AnyNotNL
                :: map (λ c, regexp.Lit (Z.of_N (N_of_ascii c))) (rev ls)
                   ++ [regexp.Star regexp.AnyNotNL]))
          = regexp.Parsed (anywhere (map (λ c, Z.of_N (N_of_ascii c)) ls))).
  f_equal. unfold regexp.concat, anywhere.
  rewrite <- concat_chain, <- map_rev, map_map.
  change (regexp.Star regexp.AnyNotNL :: ?l)
    with ([regexp.Star regexp.AnyNotNL] ++ l)%list.
  by rewrite !fold_left_app.
Qed.

(** On the pattern of a literal, the matcher is substring search. *)
Lemma MatchString_literal (lit s : string) :
  literal lit = true →
  regexp.MatchString (".*" +:+ lit +:+ ".*") s = inl (strings.Contains s lit).
Proof.
  intros Hlit. unfold regexp.MatchString. rewrite Compile_literal by done.
  unfold utf8.runes.
  rewrite search_anywhere, containsL_runes, Contains_bytes;
    [done|by apply literal_bytes|apply bytes_nonneg].
Qed.

Lemma modelled_literal (lit : string) :
  literal lit = true → regexp.modelled (".*" +:+ lit +:+ ".*") = true.
Proof. intros Hlit. unfold regexp.modelled. by rewrite Compile_literal. Qed.

Section Properties.

Context (env : Env).
Implicit Types (a : adapter) (st : State env) (code : Z).

Lemma badStatus_false code : badStatus code = false ↔ (200 ≤ code < 300)%Z.
Proof. unfold badStatus. rewrite orb_false_iff. lia. Qed.

Lemma badStatus_true code : badStatus code = true ↔ ¬ (200 ≤ code < 300)%Z.
Proof. rewrite <- badStatus_false. destruct (badStatus code); naive_solver. Qed.

(** The loop of [ListNamespaces] never yields an error. *)
Lemma rangeNamespacesData_no_error reg data acc :
  snd (rangeNamespacesData env reg data acc) = None.
Proof.
  revert acc. induction data as [|d data IH]; intros acc; simpl; [done|].
  destruct (regexp_MatchString env reg (Name d)); [apply IH | done].
Qed.

(** While the pattern is accepted, the loop appends the matching records. *)
Lemma rangeNamespacesData_accepted reg data acc :
  Forall (accepted env reg) data →
  rangeNamespacesData env reg data acc
  = ((acc ++ map namespaceOf (filter (λ d, matched env reg d = true) data))%list,
     None).
Proof.
  revert acc. induction data as [|d data IH]; intros acc Hall; simpl.
  { by rewrite app_nil_r. }
  inversion Hall as [|? ? [b Hb] Hall']; subst.
  rewrite Hb, IH by done. rewrite filter_cons.
  case_decide as Hm; unfold matched in Hm; rewrite Hb in Hm;
    destruct b; try done.
  simpl. by rewrite <- app_assoc.
Qed.

(** At the first record the pattern is refused for, the loop returns what it
    has. *)
Lemma rangeNamespacesData_refused reg pre d post acc err :
  Forall (accepted env reg) pre →
  regexp_MatchString env reg (Name d) = inr err →
  rangeNamespacesData env reg (pre ++ d :: post) acc
  = ((acc ++ map namespaceOf (filter (λ d, matched env reg d = true) pre))%list,
     None).
Proof.
  revert acc. induction pre as [|x pre IH]; intros acc Hall Herr; simpl.
  { rewrite Herr. by rewrite app_nil_r. }
  inversion Hall as [|? ? [b Hb] Hall']; subst.
  rewrite Hb, IH by done. rewrite filter_cons.
  case_decide as Hm; unfold matched in Hm; rewrite Hb in Hm;
    destruct b; try done.
  simpl. by rewrite <- app_assoc.
Qed.

(** What the loop returns was made of the records, and extends [acc]. *)
Lemma rangeNamespacesData_elem reg data acc ns :
  ns ∈ fst (rangeNamespacesData env reg data acc) →
  ns ∈ acc ∨ ∃ d, d ∈ data ∧ ns = namespaceOf d.
Proof.
  revert acc. induction data as [|d data IH]; intros acc; simpl; [by left|].
  destruct (regexp_MatchString env reg (Name d)) as [b|]; [|by left].
  intros [Hin|(d' & ? & ?)]%IH.
  - destruct b; [|by left].
    apply elem_of_app in Hin as [?|Hin]; [by left|].
    apply list_elem_of_singleton in Hin. right. exists d. split; [left|done].
  - right. exists d'. split; [by right|done].
Qed.

(** Unfolds an operation up to the request it sends. *)
Ltac sent_list a H :=
  unfold ListNamespaces, http_NewRequest; rewrite H; cbv zeta;
  change (http.Header_Add _ _ _) with (listRequest a);
  unfold bind, Do, ret.

Lemma metadata_keys d : dom (metadata d) = metadataKeys.
Proof.
  unfold metadata, metadataKeys. rewrite !dom_insert_L, dom_empty_L.
  set_solver.
Qed.

(** [ListNamespaces] when the URL does not parse. *)
Lemma ListNamespaces_unparsed a q st err :
  url_Parse env (listURL a) = Some err →
  ListNamespaces env a q st = (([], Some err), st).
Proof. intros H. unfold ListNamespaces, http_NewRequest. by rewrite H. Qed.

Lemma ListNamespaces_transport a q st err w' :
  url_Parse env (listURL a) = None →
  client_Do env (listRequest a) (world st) = (inr err, w') →
  ListNamespaces env a q st
  = (([], Some err), mkState w' (sent st ++ [listRequest a])).
Proof.
  intros H1 H2. sent_list a H1. by rewrite H2.
Qed.

Lemma ListNamespaces_status a q st resp w' :
  url_Parse env (listURL a) = None →
  client_Do env (listRequest a) (world st) = (inl resp, w') →
  badStatus (http.StatusCode resp) = true →
  ListNamespaces env a q st
  = (([], Some (statusError (http.StatusCode resp) (fst (http.Body resp)))),
     mkState w' (sent st ++ [listRequest a])).
Proof.
  intros H1 H2 H3. sent_list a H1. rewrite H2, H3.
  by destruct (http.Body resp).
Qed.

Lemma ListNamespaces_read a q st resp w' body err :
  url_Parse env (listURL a) = None →
  client_Do env (listRequest a) (world st) = (inl resp, w') →
  badStatus (http.StatusCode resp) = false →
  http.Body resp = (body, Some err) →
  ListNamespaces env a q st
  = (([], Some err), mkState w' (sent st ++ [listRequest a])).
Proof.
  intros H1 H2 H3 H4. sent_list a H1. by rewrite H2, H3, H4.
Qed.

Lemma ListNamespaces_decode a q st resp w' body err :
  url_Parse env (listURL a) = None →
  client_Do env (listRequest a) (world st) = (inl resp, w') →
  badStatus (http.StatusCode resp) = false →
  http.Body resp = (body, None) →
  json_Unmarshal_otcNamespaceList env body = inr err →
  ListNamespaces env a q st
  = (([], Some err), mkState w' (sent st ++ [listRequest a])).
Proof.
  intros H1 H2 H3 H4 H5. sent_list a H1. by rewrite H2, H3, H4, H5.
Qed.

Lemma ListNamespaces_decoded a q st resp w' body data :
  url_Parse env (listURL a) = None →
  client_Do env (listRequest a) (world st) = (inl resp, w') →
  badStatus (http.StatusCode resp) = false →
  http.Body resp = (body, None) →
  json_Unmarshal_otcNamespaceList env body = inl data →
  ListNamespaces env a q st
  = (rangeNamespacesData env (matchPattern q) (Namespace data) [],
     mkState w' (sent st ++ [listRequest a])).
Proof.
  intros H1 H2 H3 H4 H5. sent_list a H1. by rewrite H2, H3, H4, H5.
Qed.

(** The ways a call of [ListNamespaces] can go. *)
Lemma ListNamespaces_cases a q st :
  (∃ err, url_Parse env (listURL a) = Some err
          ∧ ListNamespaces env a q st = (([], Some err), st))
  ∨ (∃ err st', ListNamespaces env a q st = (([], Some err), st')
                ∧ url_Parse env (listURL a) = None)
  ∨ (∃ resp w' body data,
        url_Parse env (listURL a) = None
        ∧ client_Do env (listRequest a) (world st) = (inl resp, w')
        ∧ badStatus (http.StatusCode resp) = false
        ∧ http.Body resp = (body, None)
        ∧ json_Unmarshal_otcNamespaceList env body = inl data
        ∧ ListNamespaces env a q st
          = (rangeNamespacesData env (matchPattern q) (Namespace data) [],
             mkState w' (sent st ++ [listRequest a]))).
Proof.
  destruct (url_Parse env (listURL a)) as [err|] eqn:H1.
  { left. eauto using ListNamespaces_unparsed. }
  right.
  destruct (client_Do env (listRequest a) (world st)) as [[resp|err] w'] eqn:H2.
  2:{ left. eauto using ListNamespaces_transport. }
  destruct (badStatus (http.StatusCode resp)) eqn:H3.
  { left. eauto using ListNamespaces_status. }
  destruct (http.Body resp) as [body [err|]] eqn:H4.
  { left. eauto using ListNamespaces_read. }
  destruct (json_Unmarshal_otcNamespaceList env body) as [data|err] eqn:H5.
  2:{ left. eauto using ListNamespaces_decode. }
  right. exists resp, w', body, data.
  eauto 10 using ListNamespaces_decoded.
Qed.

(** *** [GetNamespace] *)

Lemma GetNamespace_unparsed a n st err :
  url_Parse env (lookupURL a n) = Some err →
  GetNamespace env a n st = ((unsetNamespace, Some err), st).
Proof. intros H. unfold GetNamespace, http_NewRequest. by rewrite H. Qed.

Lemma GetNamespace_sent a n st :
  url_Parse env (lookupURL a n) = None →
  GetNamespace env a n st
  = (lookupResult env (fst (client_Do env (lookupRequest a n) (world st))),
     mkState (snd (client_Do env (lookupRequest a n) (world st)))
       (sent st ++ [lookupRequest a n])).
Proof.
  intros H. unfold GetNamespace, http_NewRequest. rewrite H. cbv zeta.
  change (http.Header_Add _ _ _) with (lookupRequest a n).
  unfold bind, Do, ret, lookupResult.
  destruct (client_Do env (lookupRequest a n) (world st)) as [[resp|err] w'];
    simpl; [|done].
  destruct (badStatus (http.StatusCode resp)).
  { by destruct (http.Body resp). }
  destruct (http.Body resp) as [body [err|]]; [done|].
  by destruct (json_Unmarshal_otcNamespace env body).
Qed.

(** Next to an error [GetNamespace] returns the unset namespace. *)
Lemma lookupResult_error answer ns err :
  lookupResult env answer = (ns, Some err) → ns = unsetNamespace.
Proof.
  unfold lookupResult. destruct answer as [resp|]; [|congruence].
  destruct (badStatus _); [congruence|].
  destruct (http.Body resp) as [body [?|]]; [congruence|].
  destruct (json_Unmarshal_otcNamespace env body); congruence.
Qed.

(** [GetNamespace] succeeds exactly on a decodable answer of good status. *)
Lemma lookupResult_success answer ns :
  lookupResult env answer = (ns, None) ↔
  ∃ resp body d,
    answer = inl resp ∧ (200 ≤ http.StatusCode resp < 300)%Z
    ∧ http.Body resp = (body, None)
    ∧ json_Unmarshal_otcNamespace env body = inl d ∧ ns = namespaceOf d.
Proof.
  unfold lookupResult. split.
  - destruct answer as [resp|]; [|congruence].
    destruct (badStatus _) eqn:Hs; [congruence|].
    destruct (http.Body resp) as [body [?|]] eqn:Hb; [congruence|].
    destruct (json_Unmarshal_otcNamespace env body) as [d|] eqn:Hd; [|congruence].
    intros [= <-]. exists resp, body, d. by rewrite <- badStatus_false.
  - intros (resp & body & d & -> & Hs%badStatus_false & Hb & Hd & ->).
    by rewrite Hs, Hb, Hd.
Qed.

Lemma GetNamespace_answers a n st res st' :
  GetNamespace env a n st = (res, st') →
  world st' = world st ∨ answers env (world st) (world st').
Proof.
  destruct (url_Parse env (lookupURL a n)) as [err|] eqn:H.
  - rewrite (GetNamespace_unparsed _ _ _ _ H). intros [= _ <-]. by left.
  - rewrite (GetNamespace_sent _ _ _ H). intros [= _ <-]. right. by eexists.
Qed.

Lemma GetNamespace_present a c st :
  present env a (world st) c = true →
  ∃ ns, model.Namespace.Name ns = c
        ∧ GetNamespace env a c st
          = ((ns, None),
             mkState (snd (client_Do env (lookupRequest a c) (world st)))
               (sent st ++ [lookupRequest a c])).
Proof.
  unfold present. destruct (url_Parse env (lookupURL a c)) eqn:H; [done|].
  rewrite (GetNamespace_sent _ _ _ H).
  destruct (lookupResult env _) as [ns [?|]]; [done|].
  intros Heq%String.eqb_eq. by exists ns.
Qed.

Lemma GetNamespace_confirms a c st ns st' :
  GetNamespace env a c st = ((ns, None), st') →
  model.Namespace.Name ns = c →
  present env a (world st) c = true.
Proof.
  unfold present. destruct (url_Parse env (lookupURL a c)) as [err|] eqn:H.
  { by rewrite (GetNamespace_unparsed _ _ _ _ H). }
  rewrite (GetNamespace_sent _ _ _ H). intros [= -> _] <-.
  apply String.eqb_refl.
Qed.

(** *** The loops of [PrepareForPush] *)

(** The first loop, resource by resource. *)
Lemma rangeResources_app a pre post acc st :
  rangeResources env a (pre ++ post) acc st
  = match rangeResources env a pre acc st with
    | (inl acc', st1) => rangeResources env a post acc' st1
    | (inr err, st1) => (inr err, st1)
    end.
Proof.
  revert acc st. induction pre as [|r pre IH]; intros acc st; simpl; [done|].
  unfold bind. destruct (GetNamespace env a (candidate r) st) as [[ns [err|]] st1];
    [done|].
  destruct (String.eqb _ _); apply IH.
Qed.

(** The first loop sends lookups only, one per resource it reaches, and
    collects candidates only. *)
Lemma rangeResources_sent a resources acc st res st' :
  rangeResources env a resources acc st = (res, st') →
  ∃ looked,
    looked `prefix_of` map candidate resources
    ∧ sent st' = (sent st ++ map (lookupRequest a) looked)%list
    ∧ ∀ S, res = inl S → ∀ k, k ∈ S → k ∈ acc ∨ k ∈ map candidate resources.
Proof.
  revert acc st. induction resources as [|r rs IH]; intros acc st; simpl.
  { intros [= <- <-]. exists []. rewrite app_nil_r.
    split_and!; [done..|]. intros S [= <-]. auto. }
  unfold bind.
  destruct (url_Parse env (lookupURL a (candidate r))) as [err|] eqn:H.
  { rewrite (GetNamespace_unparsed _ _ _ _ H). intros [= <- <-].
    exists []. rewrite app_nil_r. split_and!; [apply prefix_nil|done|done]. }
  rewrite (GetNamespace_sent _ _ _ H).
  destruct (lookupResult env _) as [ns [err|]].
  { intros [= <- <-]. exists [candidate r]. split_and!; [|done|done].
    apply prefix_cons, prefix_nil. }
  intros Hrun.
  assert (∃ acc', rangeResources env a rs acc'
            (mkState (snd (client_Do env (lookupRequest a (candidate r))
                                 (world st)))
               (sent st ++ [lookupRequest a (candidate r)])) = (res, st')
          ∧ ∀ k, k ∈ acc' → k ∈ acc ∨ k = candidate r) as (acc' & Hrun' & Hacc).
  { destruct (String.eqb _ _); eexists; (split; [exact Hrun|]).
    - intros k ?. by left.
    - intros k [->%elem_of_singleton|?]%elem_of_union; auto. }
  destruct (IH _ _ Hrun') as (looked & Hpre & Hsent & Hres).
  exists (candidate r :: looked). split_and!.
  - by apply prefix_cons.
  - rewrite Hsent. simpl. by rewrite <- app_assoc.
  - intros S HS k Hk. destruct (Hres S HS k Hk) as [Hk'|Hk'].
    + destruct (Hacc k Hk') as [?| ->]; [by left|]. right. left.
    + right. by right.
Qed.

(** One turn of the second loop. *)
Lemma rangeNamespaces_cons a k keys st :
  rangeNamespaces env a (k :: keys) st
  = match json_Marshal_namespace env k with
    | inr err => (Some err, st)
    | inl payload =>
        match url_Parse env (createURL a) with
        | Some err => (Some err, st)
        | None =>
            let st1 :=
              mkState
                (snd (client_Do env (createRequest a payload) (world st)))
                (sent st ++ [createRequest a payload]) in
            match fst (client_Do env (createRequest a payload) (world st)) with
            | inr err => (Some err, st1)
            | inl resp =>
                if badStatus (http.StatusCode resp)
                then (Some (statusError (http.StatusCode resp)
                              (fst (http.Body resp))), st1)
                else rangeNamespaces env a keys st1
            end
        end
    end.
Proof.
  simpl. destruct (json_Marshal_namespace env k) as [payload|]; [|done].
  unfold http_NewRequest. destruct (url_Parse env (createURL a)); [done|].
  cbv zeta. change (http.Header_Add _ _ _) with (createRequest a payload).
  unfold bind, Do, ret.
  destruct (client_Do env (createRequest a payload) (world st))
    as [[resp|err] w']; simpl; [|done].
  destruct (badStatus _); [|done]. by destruct (http.Body resp).
Qed.

Lemma rangeNamespaces_app a done rest st :
  rangeNamespaces env a (done ++ rest) st
  = match rangeNamespaces env a done st with
    | (None, st1) => rangeNamespaces env a rest st1
    | (Some err, st1) => (Some err, st1)
    end.
Proof.
  revert st. induction done as [|k done IH]; intros st; [done|].
  rewrite <- app_comm_cons, !rangeNamespaces_cons.
  destruct (json_Marshal_namespace env k); [|done].
  destruct (url_Parse env (createURL a)); [done|]. cbv zeta.
  destruct (fst (client_Do env _ _)); [|done].
  destruct (badStatus _); [done|]. apply IH.
Qed.

(** The second loop sends creation requests only, one per key it reaches. *)
Lemma rangeNamespaces_sent a keys st res st' :
  rangeNamespaces env a keys st = (res, st') →
  ∃ created payloads,
    created `prefix_of` keys
    ∧ Forall2 (λ k p, json_Marshal_namespace env k = inl p) created payloads
    ∧ sent st' = (sent st ++ map (createRequest a) payloads)%list.
Proof.
  revert st. induction keys as [|k keys IH]; intros st.
  { intros [= <- <-]. exists [], []. by rewrite app_nil_r. }
  rewrite rangeNamespaces_cons.
  destruct (json_Marshal_namespace env k) as [payload|] eqn:Hm.
  2:{ intros [= <- <-]. exists [], []. rewrite app_nil_r.
      split_and!; [apply prefix_nil|done|done]. }
  destruct (url_Parse env (createURL a)).
  { intros [= <- <-]. exists [], []. rewrite app_nil_r.
    split_and!; [apply prefix_nil|done|done]. }
  cbv zeta. intros Hrun.
  assert (∀ tl, [k] `prefix_of` k :: tl) as Hone.
  { intros tl. apply prefix_cons, prefix_nil. }
  destruct (fst (client_Do env _ _)) as [resp|].
  2:{ injection Hrun as <- <-. exists [k], [payload]. simpl. eauto. }
  destruct (badStatus _).
  { injection Hrun as <- <-. exists [k], [payload]. simpl. eauto. }
  destruct (IH _ Hrun) as (created & payloads & Hpre & Hall & Hsent).
  exists (k :: created), (payload :: payloads). split_and!.
  - by apply prefix_cons.
  - by constructor.
  - rewrite Hsent. simpl. by rewrite <- app_assoc.
Qed.

(** The second loop, when no creation fails, has sent one creation request
    for each key, in order. *)
Lemma rangeNamespaces_sent_all a keys st st' :
  rangeNamespaces env a keys st = (None, st') →
  ∃ payloads,
    Forall2 (λ k p, json_Marshal_namespace env k = inl p) keys payloads
    ∧ sent st' = (sent st ++ map (createRequest a) payloads)%list.
Proof.
  revert st. induction keys as [|k keys IH]; intros st.
  { intros [= <-]. exists []. by rewrite app_nil_r. }
  rewrite rangeNamespaces_cons.
  destruct (json_Marshal_namespace env k) as [payload|] eqn:Hm; [|done].
  destruct (url_Parse env (createURL a)); [done|]. cbv zeta.
  destruct (fst (client_Do env _ _)) as [resp|]; [|done].
  destruct (badStatus _); [done|].
  intros (payloads & Hall & Hsent)%IH.
  exists (payload :: payloads). split; [by constructor|].
  rewrite Hsent. simpl. by rewrite <- app_assoc.
Qed.

(** *** The claims *)

(** C9: whatever the adapter and the state, [HealthCheck] reports the
    healthy status, returns no error, and sends no request: the remote and
    the log of requests are after the call what they were before it. *)
Theorem HealthCheck_healthy a st :
  fst (fst (HealthCheck env a st)) = model.Healthy
  ∧ snd (fst (HealthCheck env a st)) = None
  ∧ snd (HealthCheck env a st) = st
  ∧ requests st (snd (HealthCheck env a st)) = [].
Proof.
  unfold HealthCheck, ret, requests. simpl.
  split_and!; [done..|]. by rewrite drop_all.
Qed.

(** C10: a list that [ListNamespaces] returns next to an error is empty,
    whichever step failed. *)
Theorem ListNamespaces_error_empty a q st nss err st' :
  ListNamespaces env a q st = ((nss, Some err), st') → nss = [].
Proof.
  intros Hrun.
  destruct (ListNamespaces_cases a q st)
    as [(e & _ & Heq)|[(e & st1 & Heq & _)|(resp & w' & body & data & Heq)]].
  - congruence.
  - congruence.
  - destruct Heq as (_ & _ & _ & _ & _ & Heq). rewrite Heq in Hrun.
    pose proof (rangeNamespacesData_no_error (matchPattern q) (Namespace data) [])
      as Hnone.
    destruct (rangeNamespacesData _ _ _ _) as [x oerr]. simpl in Hnone.
    congruence.
Qed.

(** C7: when the pattern is refused at a record, [ListNamespaces] returns
    the namespaces it has kept from the records before it, and no error. *)
Theorem ListNamespaces_swallows_pattern_error
    a q st resp w' body data pre d post err :
  url_Parse env (listURL a) = None →
  client_Do env (listRequest a) (world st) = (inl resp, w') →
  (200 ≤ http.StatusCode resp < 300)%Z →
  http.Body resp = (body, None) →
  json_Unmarshal_otcNamespaceList env body = inl data →
  Namespace data = (pre ++ d :: post)%list →
  Forall (accepted env (matchPattern q)) pre →
  regexp_MatchString env (matchPattern q) (Name d) = inr err →
  ListNamespaces env a q st
  = ((map namespaceOf
        (filter (λ x, matched env (matchPattern q) x = true) pre), None),
     mkState w' (sent st ++ [listRequest a])).
Proof.
  intros H1 H2 H3%badStatus_false H4 H5 H6 H7 H8.
  rewrite (ListNamespaces_decoded _ _ _ _ _ _ _ H1 H2 H3 H4 H5), H6.
  by rewrite (rangeNamespacesData_refused _ _ _ _ _ _ H7 H8).
Qed.

(** C8: a namespace that [ListNamespaces] returns, and the namespace that
    [GetNamespace] returns when it succeeds, carries the name of a record
    decoded from the remote's answer, as it is, and a metadata map whose
    keys are id, creator_name, domain_public, auth, domain_name, user_count
    and image_count. *)
Theorem returned_namespace_of_record a :
  (∀ q st nss oerr st' ns,
      ListNamespaces env a q st = ((nss, oerr), st') → ns ∈ nss →
      ∃ resp w' body data d,
        client_Do env (listRequest a) (world st) = (inl resp, w')
        ∧ http.Body resp = (body, None)
        ∧ json_Unmarshal_otcNamespaceList env body = inl data
        ∧ d ∈ Namespace data
        ∧ model.Namespace.Name ns = Name d
        ∧ model.Namespace.Metadata ns = metadata d
        ∧ dom (model.Namespace.Metadata ns) = metadataKeys)
  ∧ (∀ n st ns st',
      GetNamespace env a n st = ((ns, None), st') →
      ∃ resp w' body d,
        client_Do env (lookupRequest a n) (world st) = (inl resp, w')
        ∧ http.Body resp = (body, None)
        ∧ json_Unmarshal_otcNamespace env body = inl d
        ∧ model.Namespace.Name ns = Name d
        ∧ model.Namespace.Metadata ns = metadata d
        ∧ dom (model.Namespace.Metadata ns) = metadataKeys).
Proof.
  split.
  - intros q st nss oerr st' ns Hrun Hin.
    destruct (ListNamespaces_cases a q st)
      as [(e & _ & Heq)|[(e & st1 & Heq & _)|(resp & w' & body & data & Heq)]].
    + rewrite Heq in Hrun. injection Hrun as <- _ _. by apply elem_of_nil in Hin.
    + rewrite Heq in Hrun. injection Hrun as <- _ _. by apply elem_of_nil in Hin.
    + destruct Heq as (_ & HDo & _ & Hbody & Hdec & Heq). rewrite Heq in Hrun.
      assert (nss = fst (rangeNamespacesData env (matchPattern q)
                           (Namespace data) [])) as ->.
      { destruct (rangeNamespacesData _ _ _ _). by injection Hrun as <- _ _. }
      apply rangeNamespacesData_elem in Hin as [Hin|(d & Hd & ->)].
      { by apply elem_of_nil in Hin. }
      exists resp, w', body, data, d. simpl.
      split_and!; (done || apply metadata_keys).
  - intros n st ns st' Hrun.
    destruct (url_Parse env (lookupURL a n)) as [err|] eqn:H.
    { by rewrite (GetNamespace_unparsed _ _ _ _ H) in Hrun. }
    rewrite (GetNamespace_sent _ _ _ H) in Hrun.
    injection Hrun as Hres _.
    apply lookupResult_success in Hres
      as (resp & body & d & Hans & _ & Hbody & Hdec & ->).
    exists resp, (snd (client_Do env (lookupRequest a n) (world st))), body, d.
    simpl. split_and!; try (done || apply metadata_keys).
    rewrite <- Hans. by destruct (client_Do env _ _).
Qed.

(** C5: on an answer whose status is outside [200,300), [ListNamespaces]
    and the creation loop of [PrepareForPush] return the error made of the
    status code and of the body as it was read, and the request that was
    answered so is the last one of the run: it is not sent again, and no
    other request follows it. *)
Theorem bad_status_aborts a :
  (∀ q st resp w',
      url_Parse env (listURL a) = None →
      client_Do env (listRequest a) (world st) = (inl resp, w') →
      ¬ (200 ≤ http.StatusCode resp < 300)%Z →
      ListNamespaces env a q st
      = (([], Some (errors_New
                      ("[" +:+ fmt_d (http.StatusCode resp) +:+ "]["
                           +:+ fst (http.Body resp) +:+ "]"))),
         mkState w' (sent st ++ [listRequest a])))
  ∧ (∀ (order : RangeOrder) resources st namespaces st1
       created namespace rest st2 payload resp w',
      rangeResources env a resources ∅ st = (inl namespaces, st1) →
      order namespaces = (created ++ namespace :: rest)%list →
      rangeNamespaces env a created st1 = (None, st2) →
      json_Marshal_namespace env namespace = inl payload →
      url_Parse env (createURL a) = None →
      client_Do env (createRequest a payload) (world st2) = (inl resp, w') →
      ¬ (200 ≤ http.StatusCode resp < 300)%Z →
      PrepareForPush env a order resources st
      = (Some (errors_New
                 ("[" +:+ fmt_d (http.StatusCode resp) +:+ "]["
                      +:+ fst (http.Body resp) +:+ "]")),
         mkState w' (sent st2 ++ [createRequest a payload]))).
Proof.
  split.
  - intros q st resp w' H1 H2 H3%badStatus_true.
    by rewrite (ListNamespaces_status _ _ _ _ _ H1 H2 H3).
  - intros order resources st namespaces st1 created namespace rest st2
      payload resp w' H1 H2 H3 H4 H5 H6 H7%badStatus_true.
    unfold PrepareForPush, bind. rewrite H1, H2, rangeNamespaces_app, H3.
    rewrite rangeNamespaces_cons, H4, H5. cbv zeta. rewrite H6. simpl.
    by rewrite H7.
Qed.

(** C6, as amended: [GetNamespace] succeeds exactly when its request is
    built and answered with a status in [200,300) and a body that is read
    and decoded, and then returns the namespace of the decoded record,
    whatever its name; next to an error it returns the unset namespace. *)
Theorem GetNamespace_outcome a n st :
  (∀ ns st',
      GetNamespace env a n st = ((ns, None), st') ↔
      ∃ resp w' body d,
        url_Parse env (lookupURL a n) = None
        ∧ client_Do env (lookupRequest a n) (world st) = (inl resp, w')
        ∧ (200 ≤ http.StatusCode resp < 300)%Z
        ∧ http.Body resp = (body, None)
        ∧ json_Unmarshal_otcNamespace env body = inl d
        ∧ ns = namespaceOf d
        ∧ st' = mkState w' (sent st ++ [lookupRequest a n]))
  ∧ (∀ ns err st',
      GetNamespace env a n st = ((ns, Some err), st') → ns = unsetNamespace).
Proof.
  destruct (url_Parse env (lookupURL a n)) as [err|] eqn:H.
  { rewrite (GetNamespace_unparsed _ _ _ _ H). split.
    - intros ns st'. split; [done|]. by intros (? & ? & ? & ? & ? & _).
    - by intros ns e st' [= <- _ _]. }
  rewrite (GetNamespace_sent _ _ _ H). split.
  - intros ns st'. split.
    + intros [= Hres <-].
      apply lookupResult_success in Hres
        as (resp & body & d & Hans & Hs & Hbody & Hdec & ->).
      exists resp, (snd (client_Do env (lookupRequest a n) (world st))),
        body, d.
      split_and!; try (done || lia).
      rewrite <- Hans. by destruct (client_Do env _ _).
    + intros (resp & w' & body & d & _ & HDo & Hs & Hbody & Hdec & -> & ->).
      rewrite HDo. f_equal. apply lookupResult_success. simpl. eauto 10.
  - intros ns e st' [= Hres _]. by eapply lookupResult_error.
Qed.

(** C2, as amended: when the lookup of a resource's candidate is answered
    with a status outside [200,300), [PrepareForPush] returns the error of
    that lookup, made of the status code and the body, and the run has sent
    no creation request. *)
Theorem PrepareForPush_lookup_failure
    a (order : RangeOrder) pre resource post st namespaces st1 resp w' :
  rangeResources env a pre ∅ st = (inl namespaces, st1) →
  url_Parse env (lookupURL a (candidate resource)) = None →
  client_Do env (lookupRequest a (candidate resource)) (world st1)
  = (inl resp, w') →
  ¬ (200 ≤ http.StatusCode resp < 300)%Z →
  PrepareForPush env a order (pre ++ resource :: post) st
  = (Some (statusError (http.StatusCode resp) (fst (http.Body resp))),
     mkState w' (sent st1 ++ [lookupRequest a (candidate resource)]))
  ∧ Forall (λ r, http.isPOST r = false)
      (requests st
         (mkState w' (sent st1 ++ [lookupRequest a (candidate resource)]))).
Proof.
  intros H1 H2 H3 H4%badStatus_true. split.
  - unfold PrepareForPush, bind. rewrite rangeResources_app, H1. simpl.
    unfold bind. rewrite (GetNamespace_sent _ _ _ H2), H3. simpl.
    by rewrite H4.
  - destruct (rangeResources_sent _ _ _ _ _ _ H1) as (looked & _ & Hsent & _).
    unfold requests. simpl. rewrite Hsent, <- app_assoc, drop_app_length.
    apply Forall_app. split; [|by repeat constructor].
    apply Forall_forall. intros r (c & -> & _)%list_elem_of_fmap. done.
Qed.

(** *** The candidate of a resource *)

Lemma Split_from_head seg s sep :
  ∃ p rest tl,
    strings.Split_from seg s sep = (seg +:+ p) :: tl
    ∧ s = p +:+ rest
    ∧ (sep ∉ list_ascii_of_string p)
    ∧ (rest = EmptyString ∨ ∃ rest', rest = String sep rest').
Proof.
  revert seg. induction s as [|c s IH]; intros seg; simpl.
  { exists EmptyString, EmptyString, []. rewrite append_nil_r.
    split_and!; [done|done|apply not_elem_of_nil|by left]. }
  destruct (Ascii.eqb c sep) eqn:Hc.
  - apply Ascii.eqb_eq in Hc as ->.
    exists EmptyString, (String sep s), (strings.Split_from EmptyString s sep).
    rewrite append_nil_r.
    split_and!; [done|done|apply not_elem_of_nil|right; by eexists].
  - apply Ascii.eqb_neq in Hc.
    destruct (IH (seg +:+ String c EmptyString)) as (p & rest & tl & -> & -> & Hp & Hrest).
    exists (String c p), rest, tl. split_and!; [|done| |done].
    + by rewrite append_assoc.
    + simpl. intros [?|?]%elem_of_cons; [congruence|done].
Qed.

(** The candidate is the repository name up to its first slash. *)
Lemma candidate_first_segment resource :
  ∃ rest,
    model.Repository.Name
      (model.ResourceMetadata.Repository (model.Resource.Metadata resource))
    = candidate resource +:+ rest
    ∧ ("/"%char ∉ list_ascii_of_string (candidate resource))
    ∧ (rest = EmptyString ∨ ∃ rest', rest = String "/" rest').
Proof.
  unfold candidate, strings.Split.
  destruct (Split_from_head EmptyString
              (model.Repository.Name
                 (model.ResourceMetadata.Repository
                    (model.Resource.Metadata resource))) "/")
    as (p & rest & tl & -> & Hname & Hp & Hrest).
  exists rest. by rewrite Hname at 1.
Qed.

(** The set the first loop returns holds what it started with and the
    candidates whose lookup, made after the resources before, returned
    without an error a namespace of another name; it holds nothing else. *)
Lemma rangeResources_collected a resources acc st S st' :
  rangeResources env a resources acc st = (inl S, st') →
  ∀ k, k ∈ S ↔
    k ∈ acc
    ∨ ∃ pre resource post namespaces st0 ns st1,
        resources = (pre ++ resource :: post)%list
        ∧ candidate resource = k
        ∧ rangeResources env a pre acc st = (inl namespaces, st0)
        ∧ GetNamespace env a k st0 = ((ns, None), st1)
        ∧ model.Namespace.Name ns ≠ k.
Proof.
  revert acc st. induction resources as [|r rs IH]; intros acc st; simpl.
  { intros [= <- <-] k. split; [by left|].
    intros [?|(pre & ? & ? & ? & ? & ? & ? & Hnil & _)]; [done|].
    by destruct pre. }
  unfold bind.
  destruct (GetNamespace env a (candidate r) st) as [[ns [err|]] st1] eqn:HG;
    [done|].
  destruct (String.eqb (model.Namespace.Name ns) (candidate r)) eqn:He;
    intros Hrun k; rewrite (IH _ _ Hrun k); split.
  - intros [?|(pre & r' & post & S0 & st0 & ns' & st2 & -> & Hk & Hpre & Hget & Hne)];
      [by left|].
    right. exists (r :: pre), r', post, S0, st0, ns', st2.
    split_and!; [done|done| |done|done].
    simpl. unfold bind. by rewrite HG, He.
  - intros [?|(pre & r' & post & S0 & st0 & ns' & st2 & Hrs & Hk & Hpre & Hget & Hne)];
      [by left|].
    destruct pre as [|r0 pre]; simpl in Hrs; injection Hrs as <- ->.
    + simpl in Hpre. injection Hpre as <- <-. rewrite <- Hk, HG in Hget.
      injection Hget as <- <-. apply String.eqb_eq in He. by rewrite <- Hk in Hne.
    + right. exists pre, r', post, S0, st0, ns', st2.
      split_and!; [done|done| |done|done].
      simpl in Hpre. unfold bind in Hpre. by rewrite HG, He in Hpre.
  - intros [[->%elem_of_singleton|?]%elem_of_union
           |(pre & r' & post & S0 & st0 & ns' & st2 & -> & Hk & Hpre & Hget & Hne)].
    + right. exists [], r, rs, acc, st, ns, st1.
      split_and!; [done|done|done|done|]. by apply String.eqb_neq.
    + by left.
    + right. exists (r :: pre), r', post, S0, st0, ns', st2.
      split_and!; [done|done| |done|done].
      simpl. unfold bind. by rewrite HG, He.
  - intros [?|(pre & r' & post & S0 & st0 & ns' & st2 & Hrs & Hk & Hpre & Hget & Hne)].
    + left. apply elem_of_union. by right.
    + destruct pre as [|r0 pre]; simpl in Hrs; injection Hrs as <- ->.
      * left. apply elem_of_union. left. by apply elem_of_singleton.
      * right. exists pre, r', post, S0, st0, ns', st2.
        split_and!; [done|done| |done|done].
        simpl in Hpre. unfold bind in Hpre. by rewrite HG, He in Hpre.
Qed.

(** C4, as amended: the candidate of a resource is its repository name up
    to the first slash (empty when the name starts with a slash); a run of
    [PrepareForPush] sends lookups for candidates and then creation
    requests for distinct candidates, one request each, however many
    resources share a candidate.  The candidates it asks to create are
    unconfirmed ones, and all of them when the run returns no error. *)
Theorem PrepareForPush_creates_once a (order : RangeOrder) resources st :
  (∀ resource,
      ∃ rest,
        model.Repository.Name
          (model.ResourceMetadata.Repository (model.Resource.Metadata resource))
        = candidate resource +:+ rest
        ∧ ("/"%char ∉ list_ascii_of_string (candidate resource))
        ∧ (rest = EmptyString ∨ ∃ rest', rest = String "/" rest'))
  ∧ ∃ looked created payloads,
      looked `prefix_of` map candidate resources
      ∧ NoDup created
      ∧ (∀ k, k ∈ created → k ∈ map candidate resources)
      ∧ (∀ k, k ∈ created → unconfirmed env a resources st k)
      ∧ (fst (PrepareForPush env a order resources st) = None →
         ∀ k, unconfirmed env a resources st k → k ∈ created)
      ∧ Forall2 (λ k p, json_Marshal_namespace env k = inl p) created payloads
      ∧ sent (snd (PrepareForPush env a order resources st))
        = (sent st ++ map (lookupRequest a) looked
             ++ map (createRequest a) payloads)%list.
Proof.
  split; [apply candidate_first_segment|].
  unfold PrepareForPush, bind.
  destruct (rangeResources env a resources ∅ st) as [[S|err] st1] eqn:H1;
    destruct (rangeResources_sent _ _ _ _ _ _ H1) as (looked & Hpre & Hsent & HS).
  2:{ exists looked, [], []. simpl. rewrite app_nil_r.
      split_and!;
        [done|constructor|by intros k ?%elem_of_nil|by intros k ?%elem_of_nil
        |done|done|done]. }
  assert (∀ k, k ∈ S ↔ unconfirmed env a resources st k) as Hcoll.
  { intros k. rewrite (rangeResources_collected _ _ _ _ _ _ H1 k).
    unfold unconfirmed. split; [|by right]. by intros [?%elem_of_empty|?]. }
  assert (NoDup (order S)) as Hnodup.
  { rewrite (range_perm order S). apply NoDup_elements. }
  assert (∀ k, k ∈ order S → k ∈ S) as Hin.
  { intros k Hk. apply elem_of_elements. by rewrite <- (range_perm order S). }
  destruct (rangeNamespaces env a (order S) st1) as [[err|] st'] eqn:H2.
  - destruct (rangeNamespaces_sent _ _ _ _ _ H2)
      as (created & payloads & [tl Htl] & Hall & Hsent').
    assert (∀ k, k ∈ created → k ∈ S) as Hsub.
    { intros k Hk. apply Hin. rewrite Htl. apply elem_of_app. by left. }
    exists looked, created, payloads. simpl. split_and!; [done| | | |done|done|].
    + rewrite Htl in Hnodup. by apply NoDup_app in Hnodup as (? & _).
    + intros k Hk%Hsub.
      destruct (HS S eq_refl k Hk) as [?%elem_of_empty|?]; done.
    + intros k Hk%Hsub. by apply Hcoll.
    + by rewrite Hsent', Hsent, <- app_assoc.
  - destruct (rangeNamespaces_sent_all _ _ _ _ H2) as (payloads & Hall & Hsent').
    exists looked, (order S : list string), payloads. simpl.
    split_and!; [done|done| | | |done|].
    + intros k Hk%Hin.
      destruct (HS S eq_refl k Hk) as [?%elem_of_empty|?]; done.
    + intros k Hk%Hin. by apply Hcoll.
    + intros _ k Hk%Hcoll. apply elem_of_elements in Hk.
      by rewrite <- (range_perm order S) in Hk.
    + by rewrite Hsent', Hsent, <- app_assoc.
Qed.

(** *** Calling [PrepareForPush] again *)

Section Idempotence.

Context (a : adapter) (resources : list model.Resource.t).

(** The remote keeps the namespaces of the resources: no request makes the
    existence check of a candidate fail once it holds. *)
Hypothesis remote_keeps : ∀ c r w,
  c ∈ map candidate resources →
  present env a w c = true →
  present env a (snd (client_Do env r w)) c = true.

(** The remote creates: once a creation request for a candidate is answered
    with a status in [200,300), the existence check of the candidate holds. *)
Hypothesis remote_creates : ∀ c payload w resp w',
  c ∈ map candidate resources →
  json_Marshal_namespace env c = inl payload →
  client_Do env (createRequest a payload) w = (inl resp, w') →
  (200 ≤ http.StatusCode resp < 300)%Z →
  present env a w' c = true.

Lemma GetNamespace_keeps n st res st' c :
  GetNamespace env a n st = (res, st') →
  c ∈ map candidate resources →
  present env a (world st) c = true →
  present env a (world st') c = true.
Proof.
  intros [->|[r ->]]%GetNamespace_answers ? ?; [done|].
  by apply remote_keeps.
Qed.

Lemma rangeResources_keeps rs acc st res st' c :
  rangeResources env a rs acc st = (res, st') →
  c ∈ map candidate resources →
  present env a (world st) c = true →
  present env a (world st') c = true.
Proof.
  revert acc st. induction rs as [|r rs IH]; intros acc st; simpl.
  { by intros [= _ <-]. }
  unfold bind.
  destruct (GetNamespace env a (candidate r) st) as [[ns oerr] st1] eqn:HG.
  intros Hrun Hc Hp.
  pose proof (GetNamespace_keeps _ _ _ _ _ HG Hc Hp) as Hp1.
  destruct oerr; [by injection Hrun as _ <-|].
  destruct (String.eqb _ _); by eapply IH.
Qed.

Lemma rangeNamespaces_keeps keys st res st' c :
  rangeNamespaces env a keys st = (res, st') →
  c ∈ map candidate resources →
  present env a (world st) c = true →
  present env a (world st') c = true.
Proof.
  revert st. induction keys as [|k keys IH]; intros st.
  { by intros [= _ <-]. }
  rewrite rangeNamespaces_cons.
  destruct (json_Marshal_namespace env k) as [payload|]; [|by intros [= _ <-]].
  destruct (url_Parse env (createURL a)); [by intros [= _ <-]|]. cbv zeta.
  intros Hrun Hc Hp.
  pose proof (remote_keeps c (createRequest a payload) _ Hc Hp) as Hp1.
  destruct (fst (client_Do env _ _)); [|by injection Hrun as _ <-].
  destruct (badStatus _); [by injection Hrun as _ <-|].
  by eapply IH.
Qed.

(** After the first loop a candidate is in the set or passes the check. *)
Lemma rangeResources_checked rs acc st S st' :
  rangeResources env a rs acc st = (inl S, st') →
  (∀ r, r ∈ rs → candidate r ∈ map candidate resources) →
  acc ⊆ S
  ∧ ∀ r, r ∈ rs →
      candidate r ∈ S ∨ present env a (world st') (candidate r) = true.
Proof.
  revert acc st. induction rs as [|r rs IH]; intros acc st; simpl.
  { intros [= <- <-] _. split; [done|]. by intros r ?%elem_of_nil. }
  unfold bind.
  destruct (GetNamespace env a (candidate r) st) as [[ns [err|]] st1] eqn:HG;
    [done|].
  intros Hrun Hsub.
  destruct (String.eqb (model.Namespace.Name ns) (candidate r)) eqn:Hname.
  - apply String.eqb_eq in Hname.
    pose proof (GetNamespace_confirms _ _ _ _ _ HG Hname) as Hp.
    assert (candidate r ∈ map candidate resources) as Hr by (apply Hsub; left).
    destruct (IH _ _ Hrun) as [Hacc Hrs].
    { intros r0 ?. apply Hsub. by right. }
    split; [done|]. intros r' [->|Hr']%elem_of_cons; [|by apply Hrs].
    right. eapply rangeResources_keeps; [exact Hrun|exact Hr|].
    eapply GetNamespace_keeps; [exact HG|exact Hr|done].
  - destruct (IH _ _ Hrun) as [Hacc Hrs].
    { intros r0 ?. apply Hsub. by right. }
    split.
    { intros k ?. apply Hacc, elem_of_union. by right. }
    intros r' [->|Hr']%elem_of_cons; [|by apply Hrs].
    left. apply Hacc, elem_of_union. left. by apply elem_of_singleton.
Qed.

(** After a second loop without error its keys pass the check. *)
Lemma rangeNamespaces_created keys st st' :
  rangeNamespaces env a keys st = (None, st') →
  (∀ k, k ∈ keys → k ∈ map candidate resources) →
  ∀ k, k ∈ keys → present env a (world st') k = true.
Proof.
  revert st. induction keys as [|k keys IH]; intros st.
  { by intros _ _ k ?%elem_of_nil. }
  rewrite rangeNamespaces_cons.
  destruct (json_Marshal_namespace env k) as [payload|] eqn:Hm; [|done].
  destruct (url_Parse env (createURL a)); [done|]. cbv zeta.
  destruct (client_Do env (createRequest a payload) (world st))
    as [[resp|] w'] eqn:HDo; simpl; [|done].
  destruct (badStatus _) eqn:Hs; [done|].
  intros Hrun Hsub k' [->|Hk']%elem_of_cons.
  - eapply rangeNamespaces_keeps; [exact Hrun|set_solver|]. simpl.
    eapply remote_creates; [set_solver|exact Hm|exact HDo|].
    by apply badStatus_false.
  - eapply IH; [exact Hrun|set_solver|done].
Qed.

(** When every candidate passes the check, the first loop collects nothing
    and sends the lookups. *)
Lemma rangeResources_all_present rs acc st :
  (∀ r, r ∈ rs → candidate r ∈ map candidate resources) →
  (∀ r, r ∈ rs → present env a (world st) (candidate r) = true) →
  ∃ st', rangeResources env a rs acc st = (inl acc, st')
         ∧ sent st'
           = (sent st ++ map (lookupRequest a) (map candidate rs))%list.
Proof.
  revert st. induction rs as [|r rs IH]; intros st Hsub Hall; simpl.
  { exists st. by rewrite app_nil_r. }
  unfold bind.
  destruct (GetNamespace_present a (candidate r) st) as (ns & Hname & HG).
  { apply Hall. left. }
  rewrite HG, Hname, String.eqb_refl.
  destruct (IH (mkState
                  (snd (client_Do env (lookupRequest a (candidate r)) (world st)))
                  (sent st ++ [lookupRequest a (candidate r)])))
    as (st' & Hrun & Hsent).
  - intros r' Hr'. apply Hsub. by right.
  - intros r' Hr'. simpl. apply remote_keeps; [|apply Hall; by right].
    apply Hsub. by right.
  - exists st'. split; [done|]. rewrite Hsent. simpl. by rewrite <- app_assoc.
Qed.

(** C3: against a remote that keeps and creates the namespaces of the
    resources, a call of [PrepareForPush] that follows a successful call on
    the same resources succeeds too, and sends lookups only: every
    candidate passes the existence check, and nothing is created. *)
Theorem PrepareForPush_idempotent (order order' : RangeOrder) st st1 :
  PrepareForPush env a order resources st = (None, st1) →
  ∃ st2,
    PrepareForPush env a order' resources st1 = (None, st2)
    ∧ sent st2
      = (sent st1 ++ map (lookupRequest a) (map candidate resources))%list.
Proof.
  unfold PrepareForPush at 1. unfold bind.
  destruct (rangeResources env a resources ∅ st) as [[S|err] st0] eqn:H1; [|done].
  intros H2.
  destruct (rangeResources_checked _ _ _ _ _ H1) as [_ Hchecked].
  { intros r Hr. by apply list_elem_of_fmap_2. }
  assert (∀ k, k ∈ order S → k ∈ map candidate resources) as Hkeys.
  { intros k Hk. rewrite (range_perm order S) in Hk.
    apply elem_of_elements in Hk.
    destruct (rangeResources_sent _ _ _ _ _ _ H1) as (_ & _ & _ & HS).
    destruct (HS S eq_refl k Hk); [set_solver|done]. }
  pose proof (rangeNamespaces_created _ _ _ H2 Hkeys) as Hcreated.
  destruct (rangeResources_all_present resources ∅ st1) as (st2 & H3 & Hsent).
  { intros r Hr. by apply list_elem_of_fmap_2. }
  { intros r Hr. destruct (Hchecked r Hr) as [HS|Hp].
    - apply Hcreated. rewrite (range_perm order S). by apply elem_of_elements.
    - eapply rangeNamespaces_keeps; [exact H2| |done].
      by apply list_elem_of_fmap_2. }
  exists st2. split; [|done].
  unfold PrepareForPush, bind. rewrite H3.
  assert (order' ∅ = []) as ->; [|done].
  apply Permutation_nil_r. rewrite (range_perm order' ∅).
  by rewrite elements_empty.
Qed.

End Idempotence.

(** *** Listing with a literal query *)

Lemma HasPrefix_nil (s : string) : strings.HasPrefix s EmptyString = true.
Proof. by destruct s. Qed.

Lemma Contains_nil (s : string) : strings.Contains s EmptyString = true.
Proof. destruct s; [done|]. simpl. done. Qed.

(** C1, as amended: for a query whose name, once its space characters are
    removed, is made of ASCII characters that are not regexp
    metacharacters, [ListNamespaces] returns the namespaces of exactly the
    records whose name contains the cleaned query name as a substring, in
    the order of the remote's list; for the empty query these are all the
    records.  The matcher is any that agrees with the model of [regexp] on
    the pattern of the query. *)
Theorem ListNamespaces_literal_query a q st resp w' body data :
  (∀ s, regexp_MatchString env (matchPattern q) s
        = regexp.MatchString (matchPattern q) s) →
  url_Parse env (listURL a) = None →
  client_Do env (listRequest a) (world st) = (inl resp, w') →
  (200 ≤ http.StatusCode resp < 300)%Z →
  http.Body resp = (body, None) →
  json_Unmarshal_otcNamespaceList env body = inl data →
  literal (strings.Replace (model.NamespaceQuery.Name q) " " EmptyString) = true →
  ListNamespaces env a q st
  = ((map namespaceOf
        (filter (λ d, strings.Contains (Name d)
                        (strings.Replace (model.NamespaceQuery.Name q) " "
                           EmptyString) = true)
           (Namespace data)), None),
     mkState w' (sent st ++ [listRequest a]))
  ∧ (model.NamespaceQuery.Name q = EmptyString →
     fst (fst (ListNamespaces env a q st)) = map namespaceOf (Namespace data)).
Proof.
  intros Hre H1 H2 H3%badStatus_false H4 H5 Hlit.
  set (lit := strings.Replace (model.NamespaceQuery.Name q) " " EmptyString) in *.
  assert (∀ d, regexp_MatchString env (matchPattern q) (Name d)
               = inl (strings.Contains (Name d) lit)) as Hmatch.
  { intros d. rewrite Hre. unfold matchPattern. fold lit.
    by apply MatchString_literal. }
  assert (ListNamespaces env a q st
          = ((map namespaceOf
                (filter (λ d, strings.Contains (Name d) lit = true)
                   (Namespace data)), None),
             mkState w' (sent st ++ [listRequest a]))) as Heq.
  { rewrite (ListNamespaces_decoded _ _ _ _ _ _ _ H1 H2 H3 H4 H5).
    rewrite rangeNamespacesData_accepted.
    2:{ apply Forall_true. intros d. eexists. apply Hmatch. }
    simpl. do 3 f_equal. apply list_filter_iff. intros d.
    unfold matched. by rewrite Hmatch. }
  split; [done|]. intros Hq. rewrite Heq. simpl. f_equal.
  subst lit. rewrite Hq. simpl.
  generalize (Namespace data). intros ds.
  induction ds as [|d ds IH]; [done|].
  rewrite filter_cons, IH. case_decide as Hc; [done|].
  by rewrite Contains_nil in Hc.
Qed.

End Properties.

(* ================================================================= *)
(** * The claims on the model remote *)

(** ** The model remote keeps and creates *)

Lemma serve_keeps (cfg : remote.config) (r : http.Request)
    (w : list string) (c : string) :
  remote.has w c = true → remote.has (snd (remote.serve cfg r w)) c = true.
Proof.
  intros H. unfold remote.serve.
  repeat (case_match; simpl; try done).
  unfold remote.has. rewrite existsb_app, orb_true_iff. by left.
Qed.

Lemma serve_lookup (c : string) (w : list string) :
  remote.serve remote.tested (lookupRequest remote.swr c) w
  = if remote.has w c
    then (inl (remote.ok (remote.recordBody c)), w)
    else (inl (remote.ok "{}"), w).
Proof. reflexivity. Qed.

(** For the names [a] and [b], the existence check holds exactly when the
    remote has the name. *)
Lemma present_tested (c : string) (w : list string) :
  c = "a" ∨ c = "b" →
  present (remote.env remote.tested) remote.swr w c = remote.has w c.
Proof.
  intros [-> | ->]; unfold present; simpl; rewrite serve_lookup;
    destruct (remote.has w _); vm_compute; reflexivity.
Qed.

Lemma serve_create (c payload : string) (w : list string)
    (resp : http.Response) (w' : list string) :
  c = "a" ∨ c = "b" →
  json.Marshal_namespace c = inl payload →
  remote.serve remote.tested (createRequest remote.swr payload) w = (inl resp, w') →
  (200 ≤ http.StatusCode resp < 300)%Z →
  remote.has w' c = true.
Proof.
  intros Hc Hm.
  assert (remote.requested payload = Some c) as Hreq.
  { destruct Hc as [-> | ->]; injection Hm as <-; reflexivity. }
  unfold remote.serve. simpl. rewrite Hreq.
  destruct (remote.has w c); [intros [= <- <-]; simpl; lia|].
  case_match; [intros [= <- <-]; simpl; lia|].
  intros [= <- <-] _. unfold remote.has. rewrite existsb_app. simpl.
  rewrite String.eqb_refl. apply orb_true_r.
Qed.

Lemma shared_candidates (c : string) :
  c ∈ map (candidate) [remote.resource "a/repo1"; remote.resource "a/repo2";
                       remote.resource "b/repo3"] →
  c = "a" ∨ c = "b".
Proof.
  change (c ∈ ["a"; "a"; "b"] → c = "a" ∨ c = "b").
  intros H. repeat (apply elem_of_cons in H as [->|H]; [by auto|]).
  by apply elem_of_nil in H.
Qed.

(** ** The adapter's test *)

(** The run of [TestAdapter_PrepareForPush]: the lookup of the missing
    namespace is answered with [{}], the namespace is created, and the call
    succeeds. *)
Example test_PrepareForPush :
  PrepareForPush (remote.env remote.tested) remote.swr remote.forward
    [remote.resource "domain_repo_new"] (remote.start remote.tested [])
  = (None,
     mkState (env := remote.env remote.tested) ["domain_repo_new"]
       [lookupRequest remote.swr "domain_repo_new";
        createRequest remote.swr
          ("{" +:+ dquote +:+ "namespace" +:+ dquote +:+ ":" +:+ dquote
               +:+ "domain_repo_new" +:+ dquote +:+ "}")]).
Proof. reflexivity. Qed.

(** Three repositories in two namespaces: two creation requests. *)
Example shared_namespace_created_once :
  filter (λ r, http.isPOST r = true)
    (sent (snd (PrepareForPush (remote.env remote.tested) remote.swr
                    remote.backward
                    [remote.resource "a/repo1"; remote.resource "a/repo2";
                     remote.resource "b/repo3"]
                    (remote.start remote.tested []))))
  = [createRequest remote.swr
       ("{" +:+ dquote +:+ "namespace" +:+ dquote +:+ ":" +:+ dquote
            +:+ "b" +:+ dquote +:+ "}");
     createRequest remote.swr
       ("{" +:+ dquote +:+ "namespace" +:+ dquote +:+ ":" +:+ dquote
            +:+ "a" +:+ dquote +:+ "}")].
Proof. reflexivity. Qed.

(** ** Where the claims fail as stated *)

(** C1 fails as stated: the query [a.c] is a pattern, not a substring; the
    record [abc] does not contain [a.c] and is returned. *)
Lemma ListNamespaces_pattern_not_substring :
  json.Unmarshal_otcNamespaceList (remote.listBody ["abc"])
  = inl (mkOtcNamespaceList [remote.record "abc"])
  ∧ fst (ListNamespaces (remote.env remote.tested) remote.swr
           (remote.query "a.c") (remote.start remote.tested ["abc"]))
    = ([namespaceOf (remote.record "abc")], None)
  ∧ Spec.listNamespaces "a.c" [remote.record "abc"] = [].
Proof. repeat split; reflexivity. Qed.

(** C2 fails as stated: when the lookup of the missing namespace is
    answered with status 404, [PrepareForPush] returns that error, and
    nothing is created. *)
Lemma PrepareForPush_not_found_aborts :
  PrepareForPush (remote.env remote.strict) remote.swr remote.forward
    [remote.resource "domain_repo_new"] (remote.start remote.strict [])
  = (Some (errors_New "[404][not found]"),
     mkState (env := remote.env remote.strict) []
       [lookupRequest remote.swr "domain_repo_new"]).
Proof. reflexivity. Qed.

(** C4 fails as stated: the candidate of [/a/repo1] is its first segment,
    the empty string, not its first non-empty segment [a]; the lookup is
    sent for the empty name. *)
Lemma candidate_may_be_empty :
  candidate (remote.resource "/a/repo1") = EmptyString
  ∧ Spec.candidate "/a/repo1" = "a"
  ∧ sent (snd (PrepareForPush (remote.env remote.tested) remote.swr
                   remote.forward [remote.resource "/a/repo1"]
                   (remote.start remote.tested [])))
    = [lookupRequest remote.swr EmptyString].
Proof. repeat split; reflexivity. Qed.

(** C6 fails as stated: the remote of the adapter's test does not have
    [domain_repo_new], and [GetNamespace] succeeds, with a namespace
    without a name. *)
Lemma GetNamespace_absent_succeeds :
  remote.has [] "domain_repo_new" = false
  ∧ GetNamespace (remote.env remote.tested) remote.swr "domain_repo_new"
      (remote.start remote.tested [])
    = ((model.Namespace.mk EmptyString (metadata json.zero), None),
       mkState (env := remote.env remote.tested) []
         [lookupRequest remote.swr "domain_repo_new"]).
Proof. repeat split; reflexivity. Qed.

(** ** The theorems at work *)

(** C10 at work: the remote is down, and the list next to the error is
    empty. *)
Lemma ListNamespaces_error_empty_witness :
  fst (fst (ListNamespaces remote.down remote.swr (remote.query "dev")
              (mkState (env := remote.down) tt [])))
  = [].
Proof.
  apply (ListNamespaces_error_empty remote.down remote.swr (remote.query "dev")
           (mkState (env := remote.down) tt []) _
           (errors_New "[503][service unavailable]")
           (mkState (env := remote.down) tt [listRequest remote.swr])).
  reflexivity.
Defined.

(** C7 at work: the query [(] makes a pattern with a missing parenthesis;
    the list is empty and there is no error. *)
Lemma ListNamespaces_swallows_pattern_error_witness :
  ListNamespaces (remote.env remote.tested) remote.swr (remote.query "(")
    (remote.start remote.tested ["abc"])
  = (([], None),
     mkState (env := remote.env remote.tested) ["abc"] [listRequest remote.swr]).
Proof.
  apply (ListNamespaces_swallows_pattern_error (remote.env remote.tested)
           remote.swr (remote.query "(") (remote.start remote.tested ["abc"])
           (remote.ok (remote.listBody ["abc"])) ["abc"]
           (remote.listBody ["abc"])
           (mkOtcNamespaceList [remote.record "abc"])
           [] (remote.record "abc") [] regexp.ErrMissingParen).
  - reflexivity.
  - reflexivity.
  - simpl. lia.
  - reflexivity.
  - reflexivity.
  - reflexivity.
  - constructor.
  - reflexivity.
Defined.

(** C8 at work: the namespace [a] looked up on a remote that has it. *)
Lemma returned_namespace_of_record_witness :
  ∃ resp w' body d,
    remote.serve remote.tested (lookupRequest remote.swr "a") ["a"] = (inl resp, w')
    ∧ http.Body resp = (body, None)
    ∧ json.Unmarshal_otcNamespace body = inl d
    ∧ "a" = Name d
    ∧ metadata (remote.record "a") = metadata d
    ∧ dom (metadata (remote.record "a")) = metadataKeys.
Proof.
  apply (proj2 (returned_namespace_of_record (remote.env remote.tested)
                  remote.swr)
           "a" (remote.start remote.tested ["a"])
           (namespaceOf (remote.record "a"))
           (mkState (env := remote.env remote.tested) ["a"]
              [lookupRequest remote.swr "a"])).
  reflexivity.
Defined.

(** C5 at work: a remote that is down answers the list request with status
    503; a remote with room for one namespace answers the second creation,
    that of [a], with status 500, after which nothing is sent for [b]. *)
Lemma bad_status_aborts_witness :
  ListNamespaces remote.down remote.swr (remote.query "dev")
    (mkState (env := remote.down) tt [])
  = (([], Some (errors_New "[503][service unavailable]")),
     mkState (env := remote.down) tt [listRequest remote.swr])
  ∧ PrepareForPush (remote.env remote.small) remote.swr remote.forward
      [remote.resource "a/repo1"; remote.resource "b/repo2";
       remote.resource "c/repo3"]
      (remote.start remote.small [])
    = (Some (errors_New "[500][quota exceeded]"),
       mkState (env := remote.env remote.small) ["c"]
         [lookupRequest remote.swr "a"; lookupRequest remote.swr "b";
          lookupRequest remote.swr "c";
          createRequest remote.swr
            ("{" +:+ dquote +:+ "namespace" +:+ dquote +:+ ":" +:+ dquote
                 +:+ "c" +:+ dquote +:+ "}");
          createRequest remote.swr
            ("{" +:+ dquote +:+ "namespace" +:+ dquote +:+ ":" +:+ dquote
                 +:+ "a" +:+ dquote +:+ "}")]).
Proof.
  split.
  - apply (proj1 (bad_status_aborts remote.down remote.swr)
             (remote.query "dev") (mkState (env := remote.down) tt [])
             (http.mkResponse 503 ("service unavailable", None)) tt).
    + reflexivity.
    + reflexivity.
    + simpl. lia.
  - apply (proj2 (bad_status_aborts (remote.env remote.small) remote.swr)
             remote.forward
             [remote.resource "a/repo1"; remote.resource "b/repo2";
              remote.resource "c/repo3"]
             (remote.start remote.small [])
             {[ "a"; "b"; "c" ]}
             (mkState (env := remote.env remote.small) []
                [lookupRequest remote.swr "a"; lookupRequest remote.swr "b";
                 lookupRequest remote.swr "c"])
             ["c"] "a" ["b"]
             (mkState (env := remote.env remote.small) ["c"]
                [lookupRequest remote.swr "a"; lookupRequest remote.swr "b";
                 lookupRequest remote.swr "c";
                 createRequest remote.swr
                   ("{" +:+ dquote +:+ "namespace" +:+ dquote +:+ ":" +:+ dquote
                        +:+ "c" +:+ dquote +:+ "}")])
             ("{" +:+ dquote +:+ "namespace" +:+ dquote +:+ ":" +:+ dquote
                  +:+ "a" +:+ dquote +:+ "}")
             (http.mkResponse 500 ("quota exceeded", None)) ["c"]).
    + reflexivity.
    + reflexivity.
    + reflexivity.
    + reflexivity.
    + reflexivity.
    + reflexivity.
    + simpl. lia.
Defined.

(** C2 at work: the remote has [a] and answers the lookup of [b] with
    status 404. *)
Lemma PrepareForPush_lookup_failure_witness :
  PrepareForPush (remote.env remote.strict) remote.swr remote.forward
    [remote.resource "a/repo1"; remote.resource "b/repo2";
     remote.resource "c/repo3"]
    (remote.start remote.strict ["a"])
  = (Some (errors_New "[404][not found]"),
     mkState (env := remote.env remote.strict) ["a"]
       [lookupRequest remote.swr "a"; lookupRequest remote.swr "b"])
  ∧ Forall (λ r, http.isPOST r = false)
      [lookupRequest remote.swr "a"; lookupRequest remote.swr "b"].
Proof.
  apply (PrepareForPush_lookup_failure (remote.env remote.strict) remote.swr
           remote.forward [remote.resource "a/repo1"]
           (remote.resource "b/repo2") [remote.resource "c/repo3"]
           (remote.start remote.strict ["a"]) ∅
           (mkState (env := remote.env remote.strict) ["a"]
              [lookupRequest remote.swr "a"])
           (http.mkResponse 404 ("not found", None)) ["a"]).
  - reflexivity.
  - reflexivity.
  - reflexivity.
  - simpl. lia.
Defined.

(** C3 at work: the second call on the resources of three repositories in
    two namespaces sends three lookups and creates nothing. *)
Lemma PrepareForPush_idempotent_witness :
  ∃ st2,
    PrepareForPush (remote.env remote.tested) remote.swr remote.backward
      [remote.resource "a/repo1"; remote.resource "a/repo2";
       remote.resource "b/repo3"]
      (snd (PrepareForPush (remote.env remote.tested) remote.swr
              remote.forward
              [remote.resource "a/repo1"; remote.resource "a/repo2";
               remote.resource "b/repo3"]
              (remote.start remote.tested [])))
    = (None, st2)
    ∧ filter (λ r, http.isPOST r = true) (sent st2)
      = filter (λ r, http.isPOST r = true)
          (sent (snd (PrepareForPush (remote.env remote.tested) remote.swr
                          remote.forward
                          [remote.resource "a/repo1"; remote.resource "a/repo2";
                           remote.resource "b/repo3"]
                          (remote.start remote.tested [])))).
Proof.
  destruct (PrepareForPush_idempotent (remote.env remote.tested) remote.swr
              [remote.resource "a/repo1"; remote.resource "a/repo2";
               remote.resource "b/repo3"]
              (λ c r w Hc Hp,
                 eq_trans
                   (present_tested c _ (shared_candidates c Hc))
                   (serve_keeps remote.tested r w c
                      (eq_trans (eq_sym (present_tested c w
                                           (shared_candidates c Hc))) Hp)))
              (λ c payload w resp w' Hc Hm HDo Hs,
                 eq_trans
                   (present_tested c w' (shared_candidates c Hc))
                   (serve_create c payload w resp w'
                      (shared_candidates c Hc) Hm HDo Hs))
              remote.forward remote.backward
              (remote.start remote.tested [])
              (snd (PrepareForPush (remote.env remote.tested) remote.swr
                      remote.forward
                      [remote.resource "a/repo1"; remote.resource "a/repo2";
                       remote.resource "b/repo3"]
                      (remote.start remote.tested [])))
              eq_refl)
    as (st2 & Hrun & Hsent).
  exists st2. split; [exact Hrun|]. rewrite Hsent.
  rewrite filter_app. rewrite <- app_nil_r. f_equal.
Defined.

(** C1 at work: the query [dev team] is cleaned to [devteam]; of the
    records [devteam], [prod] and [dev-team-x] the first contains it. *)
Lemma ListNamespaces_literal_query_witness :
  ListNamespaces (remote.env remote.tested) remote.swr (remote.query "dev team")
    (remote.start remote.tested ["devteam"; "prod"; "dev-team-x"])
  = (([namespaceOf (remote.record "devteam")], None),
     mkState (env := remote.env remote.tested) ["devteam"; "prod"; "dev-team-x"]
       [listRequest remote.swr]).
Proof.
  apply (ListNamespaces_literal_query (remote.env remote.tested)
           remote.swr (remote.query "dev team")
           (remote.start remote.tested ["devteam"; "prod"; "dev-team-x"])
           (remote.ok (remote.listBody ["devteam"; "prod"; "dev-team-x"]))
           ["devteam"; "prod"; "dev-team-x"]
           (remote.listBody ["devteam"; "prod"; "dev-team-x"])
           (mkOtcNamespaceList
              [remote.record "devteam"; remote.record "prod";
               remote.record "dev-team-x"])).
  - reflexivity.
  - reflexivity.
  - reflexivity.
  - simpl. lia.
  - reflexivity.
  - reflexivity.
  - reflexivity.
Defined.

(* ================================================================= *)
(** * More of the adapter *)

(** A pattern that starts with [.*] and a repetition operator is refused:
    the operator would repeat a repetition. *)
Lemma MatchString_leading_repeat (c : ascii) (rest s : string) :
  c = "*"%char ∨ c = "+"%char →
  ∃ err, regexp.MatchString (".*" +:+ String c rest +:+ ".*") s = inr err.
Proof.
  intros Hc. unfold regexp.MatchString, regexp.Compile.
  destruct (utf8.ValidString _); [|by eexists].
  unfold utf8.runes.
  change (utf8.bytes (".*" +:+ String c rest +:+ ".*"))
    with (46%Z :: 42%Z :: Z.of_N (N_of_ascii c) :: utf8.bytes (rest +:+ ".*")).
  rewrite !runes_from_ascii by (destruct Hc as [-> | ->]; simpl; lia).
  destruct Hc as [-> | ->]; by eexists.
Qed.

(** ** The error of a status *)

Lemma append_inj_r (s s' t : string) : s +:+ t = s' +:+ t → s = s'.
Proof.
  intros Heq. apply (f_equal list_ascii_of_string) in Heq.
  rewrite !list_ascii_of_string_app in Heq. apply app_inv_tail in Heq.
  by rewrite <- (string_of_list_ascii_of_string s),
    <- (string_of_list_ascii_of_string s'), Heq.
Qed.

(** Two strings cut at the first occurrence of a character. *)
Lemma append_cut (c : ascii) (s1 t1 s2 t2 : string) :
  c ∉ list_ascii_of_string s1 → c ∉ list_ascii_of_string s2 →
  s1 +:+ String c t1 = s2 +:+ String c t2 → s1 = s2 ∧ t1 = t2.
Proof.
  revert s2. induction s1 as [|x s1 IH]; intros [|y s2] H1 H2 Heq.
  - by injection Heq as <-.
  - injection Heq as <- _. exfalso. apply H2. simpl. left.
  - injection Heq as -> _. exfalso. apply H1. simpl. left.
  - rewrite !append_cons in Heq. injection Heq as <- Heq.
    destruct (IH s2) as [<- <-]; [|..|done|done].
    + intros ?. apply H1. simpl. by right.
    + intros ?. apply H2. simpl. by right.
Qed.

Lemma pretty_N_go_no_bracket (x : N) (s : string) :
  "]"%char ∉ list_ascii_of_string s →
  "]"%char ∉ list_ascii_of_string (pretty_N_go x s).
Proof.
  revert s. induction (N.lt_wf_0 x) as [x _ IH]. intros s Hs.
  destruct (decide (x = 0)%N) as [->|Hx]; [by rewrite pretty_N_go_0|].
  rewrite pretty_N_go_step by lia. apply IH.
  { apply N.div_lt; lia. }
  simpl. intros [Hc|?]%elem_of_cons; [|done].
  unfold pretty_N_char in Hc. by repeat case_match.
Qed.

(** The decimal form of a number holds no closing bracket. *)
Lemma fmt_d_no_bracket (n : Z) : "]"%char ∉ list_ascii_of_string (fmt_d n).
Proof.
  assert (∀ x : N, "]"%char ∉ list_ascii_of_string (pretty x)) as HN.
  { intros x. unfold pretty, pretty_N. case_decide.
    - simpl. intros [?|?%elem_of_nil]%elem_of_cons; done.
    - apply pretty_N_go_no_bracket. simpl. apply not_elem_of_nil. }
  unfold fmt_d, pretty, pretty_Z. destruct n as [|x|x].
  - simpl. intros [?|?%elem_of_nil]%elem_of_cons; done.
  - apply HN.
  - rewrite append_cons. simpl. intros [?|?]%elem_of_cons; [done|].
    by apply (HN (N.pos x)).
Qed.

(** The status code and the body can be read back from the text of the
    error that [fmt.Errorf] makes of them at lines 121, 209 and 244: two
    such errors are equal only for the same code and the same body. *)
Theorem statusError_inj (code code' : Z) (body body' : string) :
  statusError code body = statusError code' body'
  ↔ code = code' ∧ body = body'.
Proof.
  split; [|by intros [-> ->]].
  unfold statusError. intros [= Heq].
  apply append_cut in Heq as [Hcode Heq]; [|apply fmt_d_no_bracket..].
  injection Heq as Heq. apply append_inj_r in Heq.
  split; [|done]. by apply (inj pretty).
Qed.

(** ** Records and namespaces *)

(** The metadata map holds each field of the record under its key, the
    identifier and the two counts as 64-bit integers, and nothing under any
    other key; so the namespace the adapter makes of a record determines
    the record. *)
Theorem metadata_faithful (d : otcNamespace) :
  metadata d !! "id" = Some (model.Int64 (ID d))
  ∧ metadata d !! "creator_name" = Some (model.Str (CreatorName d))
  ∧ metadata d !! "domain_public" = Some (model.Int (DomainPublic d))
  ∧ metadata d !! "auth" = Some (model.Int (Auth d))
  ∧ metadata d !! "domain_name" = Some (model.Str (DomainName d))
  ∧ metadata d !! "user_count" = Some (model.Int64 (UserCount d))
  ∧ metadata d !! "image_count" = Some (model.Int64 (ImageCount d))
  ∧ (∀ k, k ∉ metadataKeys → metadata d !! k = None)
  ∧ (∀ d', namespaceOf d = namespaceOf d' ↔ d = d').
Proof.
  assert (∀ x : otcNamespace,
            metadata x !! "id" = Some (model.Int64 (ID x))
            ∧ metadata x !! "creator_name" = Some (model.Str (CreatorName x))
            ∧ metadata x !! "domain_public" = Some (model.Int (DomainPublic x))
            ∧ metadata x !! "auth" = Some (model.Int (Auth x))
            ∧ metadata x !! "domain_name" = Some (model.Str (DomainName x))
            ∧ metadata x !! "user_count" = Some (model.Int64 (UserCount x))
            ∧ metadata x !! "image_count" = Some (model.Int64 (ImageCount x)))
    as Hlookup.
  { intros x. unfold metadata. by split_and!; simplify_map_eq. }
  destruct (Hlookup d) as (H1 & H2 & H3 & H4 & H5 & H6 & H7).
  split_and!; try done.
  - intros k Hk. apply not_elem_of_dom. by rewrite metadata_keys.
  - intros d'. split; [|by intros ->].
    destruct (Hlookup d') as (H1' & H2' & H3' & H4' & H5' & H6' & H7').
    intros Heq.
    pose proof (f_equal model.Namespace.Name Heq) as Hname.
    pose proof (f_equal model.Namespace.Metadata Heq) as Hmeta.
    change (Name d = Name d') in Hname.
    change (metadata d = metadata d') in Hmeta.
    rewrite Hmeta in H1, H2, H3, H4, H5, H6, H7.
    assert (ID d = ID d') by congruence.
    assert (CreatorName d = CreatorName d') by congruence.
    assert (DomainPublic d = DomainPublic d') by congruence.
    assert (Auth d = Auth d') by congruence.
    assert (DomainName d = DomainName d') by congruence.
    assert (UserCount d = UserCount d') by congruence.
    assert (ImageCount d = ImageCount d') by congruence.
    destruct d, d'. simpl in *. by subst.
Qed.

(** Splitting at a separator that the first segment does not hold. *)
Lemma Split_from_no_sep (seg p : string) (sep : ascii) :
  sep ∉ list_ascii_of_string p →
  strings.Split_from seg p sep = [seg +:+ p]
  ∧ ∀ rest,
      strings.Split_from seg (p +:+ String sep rest) sep
      = (seg +:+ p) :: strings.Split_from EmptyString rest sep.
Proof.
  revert seg. induction p as [|c p IH]; intros seg Hp.
  { rewrite append_nil_r. split; [done|]. intros rest. simpl.
    by rewrite Ascii.eqb_refl. }
  assert (Ascii.eqb c sep = false) as Hc.
  { apply Ascii.eqb_neq. intros ->. apply Hp. simpl. left. }
  destruct (IH (seg +:+ String c EmptyString)) as [IH1 IH2].
  { intros ?. apply Hp. simpl. by right. }
  rewrite append_assoc in IH1, IH2. split.
  - simpl. by rewrite Hc.
  - intros rest. rewrite append_cons. simpl. rewrite Hc. apply IH2.
Qed.

(** The candidate of a repository name without a slash is the name itself;
    the candidate of a name with a slash is what stands before the first
    one. *)
Theorem candidate_of_name (ns rest : string) (vtags : list string) :
  "/"%char ∉ list_ascii_of_string ns →
  candidate
    (model.Resource.mk
       (model.ResourceMetadata.mk (model.Repository.mk ns) vtags))
  = ns
  ∧ candidate
      (model.Resource.mk
         (model.ResourceMetadata.mk
            (model.Repository.mk (ns +:+ "/" +:+ rest)) vtags))
    = ns.
Proof.
  intros Hns. unfold candidate, strings.Split. simpl.
  destruct (Split_from_no_sep EmptyString ns "/" Hns) as [H1 H2].
  change (ns +:+ "/" +:+ rest) with (ns +:+ String "/" rest).
  by rewrite H1, H2.
Qed.

Section Operations.

Context (env : Env).
Implicit Types (a : adapter) (st : State env).

(** ** Listing *)

(** [ListNamespaces] sends one request, the same whatever the query, unless
    the URL does not parse; then it sends none and returns the parse
    error. *)
Theorem ListNamespaces_request a q st :
  match url_Parse env (listURL a) with
  | Some err => ListNamespaces env a q st = (([], Some err), st)
  | None =>
      snd (ListNamespaces env a q st)
      = mkState (snd (client_Do env (listRequest a) (world st)))
          (sent st ++ [listRequest a])
  end.
Proof.
  destruct (url_Parse env (listURL a)) as [err|] eqn:H1.
  { by apply ListNamespaces_unparsed. }
  destruct (client_Do env (listRequest a) (world st)) as [[resp|err] w'] eqn:H2.
  2:{ by rewrite (ListNamespaces_transport _ _ _ _ _ _ H1 H2). }
  destruct (badStatus (http.StatusCode resp)) eqn:H3.
  { by rewrite (ListNamespaces_status _ _ _ _ _ _ H1 H2 H3). }
  destruct (http.Body resp) as [body [err|]] eqn:H4.
  { by rewrite (ListNamespaces_read _ _ _ _ _ _ _ _ H1 H2 H3 H4). }
  destruct (json_Unmarshal_otcNamespaceList env body) as [data|err] eqn:H5.
  - by rewrite (ListNamespaces_decoded _ _ _ _ _ _ _ _ H1 H2 H3 H4 H5).
  - by rewrite (ListNamespaces_decode _ _ _ _ _ _ _ _ H1 H2 H3 H4 H5).
Qed.

(** The loop of [ListNamespaces] keeps the matching records of the longest
    run of records the pattern is accepted for. *)
Lemma rangeNamespacesData_prefix reg data acc :
  ∃ pre post,
    data = (pre ++ post)%list
    ∧ Forall (accepted env reg) pre
    ∧ match post with
      | [] => True
      | d :: _ => ∃ err, regexp_MatchString env reg (Name d) = inr err
      end
    ∧ rangeNamespacesData env reg data acc
      = ((acc ++ map namespaceOf
                   (filter (λ d, matched env reg d = true) pre))%list, None).
Proof.
  induction data as [|d data IH] using rev_ind.
  { exists [], []. simpl. by rewrite app_nil_r. }
  destruct IH as (pre & post & -> & Hall & Hpost & Hrun).
  destruct post as [|x post].
  - rewrite app_nil_r in *.
    destruct (regexp_MatchString env reg (Name d)) as [b|err] eqn:Hd.
    + exists (pre ++ [d])%list, []. rewrite app_nil_r. split_and!; [done| |done|].
      * apply Forall_app. split; [done|]. constructor; [by exists b|done].
      * apply rangeNamespacesData_accepted, Forall_app.
        split; [done|]. constructor; [by exists b|done].
    + exists pre, [d]. split_and!; [done|done|by exists err|].
      by apply (rangeNamespacesData_refused env reg pre d [] acc err).
  - destruct Hpost as [err Herr]. exists pre, (x :: post ++ [d])%list.
    split_and!; [by rewrite <- app_assoc|done|by exists err|].
    rewrite <- app_assoc.
    by apply (rangeNamespacesData_refused env reg pre x (post ++ [d]) acc err).
Qed.

(** [ListNamespaces] succeeds exactly when its request is built and
    answered with a status in [200,300) and a body that is read and
    decoded; it then returns, in the remote's order, the matching records
    among those that precede the first record the pattern is refused
    for. *)
Theorem ListNamespaces_outcome a q st nss st' :
  ListNamespaces env a q st = ((nss, None), st') ↔
  ∃ resp w' body data pre post,
    url_Parse env (listURL a) = None
    ∧ client_Do env (listRequest a) (world st) = (inl resp, w')
    ∧ (200 ≤ http.StatusCode resp < 300)%Z
    ∧ http.Body resp = (body, None)
    ∧ json_Unmarshal_otcNamespaceList env body = inl data
    ∧ Namespace data = (pre ++ post)%list
    ∧ Forall (accepted env (matchPattern q)) pre
    ∧ match post with
      | [] => True
      | d :: _ =>
          ∃ err, regexp_MatchString env (matchPattern q) (Name d) = inr err
      end
    ∧ nss = map namespaceOf
              (filter (λ d, matched env (matchPattern q) d = true) pre)
    ∧ st' = mkState w' (sent st ++ [listRequest a]).
Proof.
  split.
  - intros Hrun.
    destruct (ListNamespaces_cases env a q st)
      as [(e & _ & Heq)|[(e & st1 & Heq & _)|(resp & w' & body & data & Heq)]];
      [congruence..|].
    destruct Heq as (H1 & H2 & H3%badStatus_false & H4 & H5 & Heq).
    destruct (rangeNamespacesData_prefix (matchPattern q) (Namespace data) [])
      as (pre & post & Hdata & Hall & Hpost & Hloop).
    rewrite Heq, Hloop in Hrun. injection Hrun as <- <-.
    exists resp, w', body, data, pre, post. split_and!; (done || lia).
  - intros (resp & w' & body & data & pre & post
            & H1 & H2 & H3%badStatus_false & H4 & H5 & H6 & Hall & Hpost & -> & ->).
    rewrite (ListNamespaces_decoded _ _ _ _ _ _ _ _ H1 H2 H3 H4 H5), H6.
    f_equal. destruct post as [|d post].
    + rewrite app_nil_r. by rewrite rangeNamespacesData_accepted.
    + destruct Hpost as [err Herr].
      by rewrite (rangeNamespacesData_refused env _ pre d post [] err).
Qed.

(** Whatever the matcher, the namespaces [ListNamespaces] returns are those
    of a selection of the decoded records, in the order of the records:
    none is made up, repeated or moved. *)
Theorem ListNamespaces_sublist a q st nss oerr st' resp w' body data :
  ListNamespaces env a q st = ((nss, oerr), st') →
  client_Do env (listRequest a) (world st) = (inl resp, w') →
  http.Body resp = (body, None) →
  json_Unmarshal_otcNamespaceList env body = inl data →
  nss `sublist_of` map namespaceOf (Namespace data).
Proof.
  intros Hrun H2 H4 H5.
  destruct (ListNamespaces_cases env a q st)
    as [(e & _ & Heq)|[(e & st1 & Heq & _)|(resp' & w'' & body' & data' & Heq)]].
  - rewrite Heq in Hrun. injection Hrun as <- _ _. apply sublist_nil_l.
  - rewrite Heq in Hrun. injection Hrun as <- _ _. apply sublist_nil_l.
  - destruct Heq as (_ & H2' & _ & H4' & H5' & Heq).
    rewrite H2 in H2'. injection H2' as <- <-.
    rewrite H4 in H4'. injection H4' as <-.
    rewrite H5 in H5'. injection H5' as <-.
    destruct (rangeNamespacesData_prefix (matchPattern q) (Namespace data) [])
      as (pre & post & Hdata & _ & _ & Hloop).
    rewrite Heq, Hloop in Hrun. injection Hrun as <- _ _. simpl.
    rewrite Hdata, map_app. apply sublist_inserts_r, fmap_sublist, sublist_filter.
Qed.

(** The spaces of a query do not count: two queries whose names agree once
    their spaces are removed get the same answer. *)
Theorem ListNamespaces_spaces a q1 q2 st :
  strings.Replace (model.NamespaceQuery.Name q1) " " EmptyString
  = strings.Replace (model.NamespaceQuery.Name q2) " " EmptyString →
  ListNamespaces env a q1 st = ListNamespaces env a q2 st.
Proof.
  intros Hq.
  assert (matchPattern q1 = matchPattern q2) as Hreg.
  { unfold matchPattern. by rewrite Hq. }
  destruct (ListNamespaces_cases env a q1 st)
    as [(e & H1 & Heq)|[(e & st1 & Heq & H1)|(resp & w' & body & data & Heq)]].
  - rewrite Heq. symmetry. by apply ListNamespaces_unparsed.
  - unfold ListNamespaces in *. unfold http_NewRequest in *. rewrite H1 in *.
    cbv zeta in *. unfold bind, Do, ret in *.
    destruct (client_Do env _ (world st)) as [[resp|err] w'];
      simpl in *; [|done].
    destruct (badStatus _); [done|].
    destruct (http.Body resp) as [body [err|]]; [done|].
    destruct (json_Unmarshal_otcNamespaceList env body); [|done].
    by rewrite <- Hreg.
  - destruct Heq as (H1 & H2 & H3 & H4 & H5 & Heq). rewrite Heq.
    by rewrite (ListNamespaces_decoded _ _ q2 _ _ _ _ _ H1 H2 H3 H4 H5), Hreg.
Qed.

(** A query whose name, once its spaces are removed, starts with [*] or [+]
    makes a pattern that is refused: whatever the records, the list is
    empty and there is no error.  The matcher is any that agrees with the
    model of [regexp] on the pattern of the query. *)
Theorem ListNamespaces_leading_repeat a q st resp w' body data c rest :
  (∀ s, regexp_MatchString env (matchPattern q) s
        = regexp.MatchString (matchPattern q) s) →
  url_Parse env (listURL a) = None →
  client_Do env (listRequest a) (world st) = (inl resp, w') →
  (200 ≤ http.StatusCode resp < 300)%Z →
  http.Body resp = (body, None) →
  json_Unmarshal_otcNamespaceList env body = inl data →
  strings.Replace (model.NamespaceQuery.Name q) " " EmptyString = String c rest →
  c = "*"%char ∨ c = "+"%char →
  ListNamespaces env a q st
  = (([], None), mkState w' (sent st ++ [listRequest a])).
Proof.
  intros Hre H1 H2 H3%badStatus_false H4 H5 Hq Hc.
  rewrite (ListNamespaces_decoded _ _ _ _ _ _ _ _ H1 H2 H3 H4 H5).
  f_equal. destruct (Namespace data) as [|d ds]; [done|].
  destruct (MatchString_leading_repeat c rest (Name d) Hc) as [err Herr].
  apply (rangeNamespacesData_refused env _ [] d ds [] err); [done|].
  rewrite Hre. unfold matchPattern. by rewrite Hq.
Qed.

(** ** Lookup *)

(** [GetNamespace] sends one request, built from the address made of the
    base URL, the path of the namespaces and the name as it was given,
    unless that address does not parse; then it sends none and returns the
    parse error next to the unset namespace. *)
Theorem GetNamespace_request a n st :
  match url_Parse env (lookupURL a n) with
  | Some err => GetNamespace env a n st = ((unsetNamespace, Some err), st)
  | None =>
      snd (GetNamespace env a n st)
      = mkState (snd (client_Do env (lookupRequest a n) (world st)))
          (sent st ++ [lookupRequest a n])
  end.
Proof.
  destruct (url_Parse env (lookupURL a n)) as [err|] eqn:H.
  - by apply GetNamespace_unparsed.
  - by rewrite (GetNamespace_sent _ _ _ _ H).
Qed.

(** The failures of [GetNamespace] once its request is sent: a transport
    error and a read or decode error are returned as they are, a status
    outside [200,300) makes the error of the status code and the body; the
    namespace next to each is the unset one. *)
Theorem GetNamespace_failures a n st :
  url_Parse env (lookupURL a n) = None →
  (∀ err w',
      client_Do env (lookupRequest a n) (world st) = (inr err, w') →
      GetNamespace env a n st
      = ((unsetNamespace, Some err),
         mkState w' (sent st ++ [lookupRequest a n])))
  ∧ (∀ resp w',
      client_Do env (lookupRequest a n) (world st) = (inl resp, w') →
      ¬ (200 ≤ http.StatusCode resp < 300)%Z →
      GetNamespace env a n st
      = ((unsetNamespace,
          Some (errors_New
                  ("[" +:+ fmt_d (http.StatusCode resp) +:+ "]["
                       +:+ fst (http.Body resp) +:+ "]"))),
         mkState w' (sent st ++ [lookupRequest a n])))
  ∧ (∀ resp w' body err,
      client_Do env (lookupRequest a n) (world st) = (inl resp, w') →
      (200 ≤ http.StatusCode resp < 300)%Z →
      http.Body resp = (body, Some err) →
      GetNamespace env a n st
      = ((unsetNamespace, Some err),
         mkState w' (sent st ++ [lookupRequest a n])))
  ∧ (∀ resp w' body err,
      client_Do env (lookupRequest a n) (world st) = (inl resp, w') →
      (200 ≤ http.StatusCode resp < 300)%Z →
      http.Body resp = (body, None) →
      json_Unmarshal_otcNamespace env body = inr err →
      GetNamespace env a n st
      = ((unsetNamespace, Some err),
         mkState w' (sent st ++ [lookupRequest a n]))).
Proof.
  intros H. rewrite (GetNamespace_sent _ _ _ _ H). split_and!.
  - by intros err w' ->.
  - intros resp w' -> Hs%badStatus_true. simpl. by rewrite Hs.
  - intros resp w' body err -> Hs%badStatus_false Hb. simpl.
    by rewrite Hs, Hb.
  - intros resp w' body err -> Hs%badStatus_false Hb Hd. simpl.
    by rewrite Hs, Hb, Hd.
Qed.

(** ** Push preparation *)

(** Without resources [PrepareForPush] succeeds and sends nothing. *)
Theorem PrepareForPush_no_resources a (order : RangeOrder) st :
  PrepareForPush env a order [] st = (None, st).
Proof.
  unfold PrepareForPush, bind. simpl.
  assert (order ∅ = []) as ->; [|done].
  apply Permutation_nil_r. rewrite (range_perm order ∅).
  by rewrite elements_empty.
Qed.

(** A transport error is returned as it is, and ends the run: by
    [ListNamespaces], with an empty list, and by [PrepareForPush], at a
    lookup and at a creation. *)
Theorem transport_error_returned a :
  (∀ q st err w',
      url_Parse env (listURL a) = None →
      client_Do env (listRequest a) (world st) = (inr err, w') →
      ListNamespaces env a q st
      = (([], Some err), mkState w' (sent st ++ [listRequest a])))
  ∧ (∀ (order : RangeOrder) pre resource post st namespaces st1 err w',
      rangeResources env a pre ∅ st = (inl namespaces, st1) →
      url_Parse env (lookupURL a (candidate resource)) = None →
      client_Do env (lookupRequest a (candidate resource)) (world st1)
      = (inr err, w') →
      PrepareForPush env a order (pre ++ resource :: post) st
      = (Some err,
         mkState w' (sent st1 ++ [lookupRequest a (candidate resource)])))
  ∧ (∀ (order : RangeOrder) resources st namespaces st1
       created namespace rest st2 payload err w',
      rangeResources env a resources ∅ st = (inl namespaces, st1) →
      order namespaces = (created ++ namespace :: rest)%list →
      rangeNamespaces env a created st1 = (None, st2) →
      json_Marshal_namespace env namespace = inl payload →
      url_Parse env (createURL a) = None →
      client_Do env (createRequest a payload) (world st2) = (inr err, w') →
      PrepareForPush env a order resources st
      = (Some err, mkState w' (sent st2 ++ [createRequest a payload]))).
Proof.
  split_and!.
  - intros q st err w' H1 H2. by apply ListNamespaces_transport.
  - intros order pre resource post st namespaces st1 err w' H1 H2 H3.
    unfold PrepareForPush, bind. rewrite rangeResources_app, H1. simpl.
    unfold bind. by rewrite (GetNamespace_sent _ _ _ _ H2), H3.
  - intros order resources st namespaces st1 created namespace rest st2
      payload err w' H1 H2 H3 H4 H5 H6.
    unfold PrepareForPush, bind. rewrite H1, H2, rangeNamespaces_app, H3.
    rewrite rangeNamespaces_cons, H4, H5. cbv zeta. by rewrite H6.
Qed.

(** What [PrepareForPush] does for one resource, by the answer to the
    lookup of its candidate: an error ends the call; a namespace that has
    the candidate's name ends it with success and nothing created; any
    other namespace, whatever its name, leads to the creation of the
    candidate. *)
Theorem PrepareForPush_one_resource a (order : RangeOrder) resource st ns oerr st1 :
  GetNamespace env a (candidate resource) st = ((ns, oerr), st1) →
  PrepareForPush env a order [resource] st
  = match oerr with
    | Some err => (Some err, st1)
    | None =>
        if String.eqb (model.Namespace.Name ns) (candidate resource)
        then (None, st1)
        else rangeNamespaces env a [candidate resource] st1
    end.
Proof.
  intros HG. unfold PrepareForPush, bind. simpl. unfold bind. rewrite HG.
  destruct oerr as [err|]; [done|].
  destruct (String.eqb _ _); simpl.
  - assert (order ∅ = []) as ->; [|done].
    apply Permutation_nil_r. rewrite (range_perm order ∅).
    by rewrite elements_empty.
  - assert (order ({[candidate resource]} ∪ ∅) = [candidate resource]) as ->;
      [|done].
    apply Permutation_singleton_r.
    rewrite (range_perm order _), union_empty_r_L.
    by rewrite elements_singleton.
Qed.



End Operations.

(** ** What a successful preparation ensures *)

Section Guarantee.

Context (env : Env) (a : adapter) (resources : list model.Resource.t).

Hypothesis remote_keeps : ∀ c r w,
  c ∈ map candidate resources →
  present env a w c = true →
  present env a (snd (client_Do env r w)) c = true.

Hypothesis remote_creates : ∀ c payload w resp w',
  c ∈ map candidate resources →
  json_Marshal_namespace env c = inl payload →
  client_Do env (createRequest a payload) w = (inl resp, w') →
  (200 ≤ http.StatusCode resp < 300)%Z →
  present env a w' c = true.

(** Against a remote that keeps and creates the namespaces of the
    resources, after a successful [PrepareForPush] the existence check
    holds for the candidate of every resource. *)
Theorem PrepareForPush_ensures (order : RangeOrder) st st1 :
  PrepareForPush env a order resources st = (None, st1) →
  ∀ r, r ∈ resources → present env a (world st1) (candidate r) = true.
Proof.
  unfold PrepareForPush, bind.
  destruct (rangeResources env a resources ∅ st) as [[S|err] st0] eqn:H1; [|done].
  intros H2 r Hr.
  destruct (rangeResources_checked env a resources remote_keeps
              _ _ _ _ _ H1) as [_ Hchecked].
  { intros r0 Hr0. by apply list_elem_of_fmap_2. }
  destruct (Hchecked r Hr) as [HS|Hp].
  - apply (rangeNamespaces_created env a resources remote_keeps remote_creates
             _ _ _ H2).
    + intros k Hk. rewrite (range_perm order S) in Hk.
      apply elem_of_elements in Hk.
      destruct (rangeResources_sent _ _ _ _ _ _ _ H1) as (_ & _ & _ & HS').
      destruct (HS' S eq_refl k Hk); [set_solver|done].
    + rewrite (range_perm order S). by apply elem_of_elements.
  - eapply (rangeNamespaces_keeps env a resources remote_keeps);
      [exact H2|by apply list_elem_of_fmap_2|done].
Qed.

End Guarantee.

(** ** The further theorems at work *)

(** The selection at work: of [devteam], [prod] and [dev-team-x] the query
    [dev] selects the first and the last. *)
Lemma ListNamespaces_sublist_witness :
  [namespaceOf (remote.record "devteam"); namespaceOf (remote.record "dev-team-x")]
  `sublist_of`
  map namespaceOf
    [remote.record "devteam"; remote.record "prod"; remote.record "dev-team-x"].
Proof.
  apply (ListNamespaces_sublist (remote.env remote.tested) remote.swr
           (remote.query "dev")
           (remote.start remote.tested ["devteam"; "prod"; "dev-team-x"])
           _ None
           (mkState (env := remote.env remote.tested)
              ["devteam"; "prod"; "dev-team-x"] [listRequest remote.swr])
           (remote.ok (remote.listBody ["devteam"; "prod"; "dev-team-x"]))
           ["devteam"; "prod"; "dev-team-x"]
           (remote.listBody ["devteam"; "prod"; "dev-team-x"])
           (mkOtcNamespaceList
              [remote.record "devteam"; remote.record "prod";
               remote.record "dev-team-x"])).
  - reflexivity.
  - reflexivity.
  - reflexivity.
  - reflexivity.
Defined.

(** The spaces at work: [dev team] and [devteam] get the same answer. *)
Lemma ListNamespaces_spaces_witness :
  ListNamespaces (remote.env remote.tested) remote.swr (remote.query "dev team")
    (remote.start remote.tested ["devteam"; "prod"])
  = ListNamespaces (remote.env remote.tested) remote.swr (remote.query "devteam")
      (remote.start remote.tested ["devteam"; "prod"]).
Proof.
  apply (ListNamespaces_spaces (remote.env remote.tested) remote.swr
           (remote.query "dev team") (remote.query "devteam")).
  reflexivity.
Defined.

(** A refused pattern at work: the query [*dev] returns nothing. *)
Lemma ListNamespaces_leading_repeat_witness :
  ListNamespaces (remote.env remote.tested) remote.swr (remote.query "*dev")
    (remote.start remote.tested ["devteam"; "prod"])
  = (([], None),
     mkState (env := remote.env remote.tested) ["devteam"; "prod"]
       [listRequest remote.swr]).
Proof.
  apply (ListNamespaces_leading_repeat (remote.env remote.tested) remote.swr
           (remote.query "*dev") (remote.start remote.tested ["devteam"; "prod"])
           (remote.ok (remote.listBody ["devteam"; "prod"]))
           ["devteam"; "prod"] (remote.listBody ["devteam"; "prod"])
           (mkOtcNamespaceList [remote.record "devteam"; remote.record "prod"])
           "*"%char "dev").
  - reflexivity.
  - reflexivity.
  - reflexivity.
  - simpl. lia.
  - reflexivity.
  - reflexivity.
  - reflexivity.
  - by left.
Defined.

(** The failures of a lookup at work: status 404 from the strict remote. *)
Lemma GetNamespace_failures_witness :
  GetNamespace (remote.env remote.strict) remote.swr "b"
    (remote.start remote.strict ["a"])
  = ((unsetNamespace, Some (errors_New "[404][not found]")),
     mkState (env := remote.env remote.strict) ["a"]
       [lookupRequest remote.swr "b"]).
Proof.
  destruct (GetNamespace_failures (remote.env remote.strict) remote.swr "b"
              (remote.start remote.strict ["a"]) eq_refl)
    as (_ & Hstatus & _ & _).
  apply (Hstatus (http.mkResponse 404 ("not found", None)) ["a"]).
  - reflexivity.
  - simpl. lia.
Defined.

(** Transport errors at work: a remote whose connection always drops ends
    the listing and the first lookup; one that drops on creation ends the
    run at the first creation request. *)
Lemma transport_error_returned_witness :
  ListNamespaces (remote.dropping (λ _, true)) remote.swr (remote.query "dev")
    (mkState (env := remote.dropping (λ _, true)) tt [])
  = (([], Some (errors_New "connection reset by peer")),
     mkState (env := remote.dropping (λ _, true)) tt [listRequest remote.swr])
  ∧ PrepareForPush (remote.dropping (λ _, true)) remote.swr remote.forward
      [remote.resource "a/repo1"; remote.resource "b/repo2"]
      (mkState (env := remote.dropping (λ _, true)) tt [])
    = (Some (errors_New "connection reset by peer"),
       mkState (env := remote.dropping (λ _, true)) tt
         [lookupRequest remote.swr "a"])
  ∧ PrepareForPush (remote.dropping http.isPOST) remote.swr remote.forward
      [remote.resource "a/repo1"]
      (mkState (env := remote.dropping http.isPOST) tt [])
    = (Some (errors_New "connection reset by peer"),
       mkState (env := remote.dropping http.isPOST) tt
         [lookupRequest remote.swr "a";
          createRequest remote.swr
            ("{" +:+ dquote +:+ "namespace" +:+ dquote +:+ ":" +:+ dquote
                 +:+ "a" +:+ dquote +:+ "}")]).
Proof.
  split_and!.
  - apply (proj1 (transport_error_returned (remote.dropping (λ _, true))
                    remote.swr)); reflexivity.
  - apply (proj1 (proj2 (transport_error_returned (remote.dropping (λ _, true))
                           remote.swr))
             remote.forward [] (remote.resource "a/repo1")
             [remote.resource "b/repo2"]
             (mkState (env := remote.dropping (λ _, true)) tt []) ∅
             (mkState (env := remote.dropping (λ _, true)) tt []));
      reflexivity.
  - apply (proj2 (proj2 (transport_error_returned (remote.dropping http.isPOST)
                           remote.swr))
             remote.forward [remote.resource "a/repo1"]
             (mkState (env := remote.dropping http.isPOST) tt [])
             ({[ "a" ]} ∪ ∅)
             (mkState (env := remote.dropping http.isPOST) tt
                [lookupRequest remote.swr "a"])
             [] "a" []
             (mkState (env := remote.dropping http.isPOST) tt
                [lookupRequest remote.swr "a"])
             ("{" +:+ dquote +:+ "namespace" +:+ dquote +:+ ":" +:+ dquote
                  +:+ "a" +:+ dquote +:+ "}"));
      reflexivity.
Defined.

(** One resource at work: the test's remote answers the lookup of [b] with
    an empty record, and the candidate goes to the creation loop. *)
Lemma PrepareForPush_one_resource_witness :
  PrepareForPush (remote.env remote.tested) remote.swr remote.forward
    [remote.resource "b/repo"] (remote.start remote.tested ["a"])
  = rangeNamespaces (remote.env remote.tested) remote.swr ["b"]
      (mkState (env := remote.env remote.tested) ["a"]
         [lookupRequest remote.swr "b"]).
Proof.
  apply (PrepareForPush_one_resource (remote.env remote.tested) remote.swr
           remote.forward (remote.resource "b/repo")
           (remote.start remote.tested ["a"])
           (namespaceOf json.zero) None
           (mkState (env := remote.env remote.tested) ["a"]
              [lookupRequest remote.swr "b"])).
  reflexivity.
Defined.


(** The guarantee at work: after the preparation for three repositories in
    two namespaces the remote has both. *)
Lemma PrepareForPush_ensures_witness :
  present (remote.env remote.tested) remote.swr ["a"; "b"]
    (candidate (remote.resource "a/repo1")) = true
  ∧ present (remote.env remote.tested) remote.swr ["a"; "b"]
      (candidate (remote.resource "b/repo3")) = true.
Proof.
  assert (∀ r,
            r ∈ [remote.resource "a/repo1"; remote.resource "a/repo2";
                 remote.resource "b/repo3"] →
            present (remote.env remote.tested) remote.swr ["a"; "b"]
              (candidate r) = true) as Hall; [|split; apply Hall].
  apply (PrepareForPush_ensures (remote.env remote.tested) remote.swr
           [remote.resource "a/repo1"; remote.resource "a/repo2";
            remote.resource "b/repo3"]
           (λ c r w Hc Hp,
              eq_trans
                (present_tested c _ (shared_candidates c Hc))
                (serve_keeps remote.tested r w c
                   (eq_trans (eq_sym (present_tested c w
                                        (shared_candidates c Hc))) Hp)))
           (λ c payload w resp w' Hc Hm HDo Hs,
              eq_trans
                (present_tested c w' (shared_candidates c Hc))
                (serve_create c payload w resp w'
                   (shared_candidates c Hc) Hm HDo Hs))
           remote.forward (remote.start remote.tested [])
           (mkState (env := remote.env remote.tested) ["a"; "b"]
              [lookupRequest remote.swr "a"; lookupRequest remote.swr "a";
               lookupRequest remote.swr "b";
               createRequest remote.swr
                 ("{" +:+ dquote +:+ "namespace" +:+ dquote +:+ ":" +:+ dquote
                      +:+ "a" +:+ dquote +:+ "}");
               createRequest remote.swr
                 ("{" +:+ dquote +:+ "namespace" +:+ dquote +:+ ":" +:+ dquote
                      +:+ "b" +:+ dquote +:+ "}")])).
  - reflexivity.
  - left.
  - right. right. left.
Defined.

(** The candidate at work: [domain] and [domain/app]. *)
Lemma candidate_of_name_witness :
  candidate (remote.resource "domain") = "domain"
  ∧ candidate (remote.resource "domain/app") = "domain".
Proof.
  apply (candidate_of_name "domain" "app" []).
  rewrite list_elem_of_In. simpl. intuition discriminate.
Defined.
